(** * Attendance tracker: record store, name parsing and aggregation

    A shallow embedding of [src/app/page.tsx] (the [StorageService] class and
    the pure helpers of the [AttendanceTracker] component),
    [src/app/api/records/route.ts] (the HTTP handlers) and the SQLite service
    they call, with the properties of the specification stated over it.

    Conventions of the embedding:
    - A JavaScript string is a sequence of UTF-16 code units: the type
      [string] of the module [String] below, whose characters are numbers.
      Length, [substring], [startsWith], [includes], [===] and the default
      order of [sort] count and compare code units, and the class [\s] of
      regular expressions and of [trim] is JavaScript's class over all code
      units.  [toLowerCase] and [localeCompare] follow the Unicode tables of
      the host and are parameters of the functions that call them.
    - JavaScript numbers that hold identifiers and counters are integers [Z],
      read as safe integers (of magnitude below 2^53), on which doubles are
      exact and [toString] prints the decimal digits; day totals are sums of
      1 and 0.5, which doubles add exactly, and are canonical rationals [Qc].
    - [JSON.stringify] followed by [JSON.parse] is the identity on the typed
      values that the program stores, so a stored text is represented by the
      value it decodes to. *)

From Stdlib Require Import ZArith NArith List Bool Lia.
From Stdlib Require Import Strings.Byte.
From Stdlib Require Import Numbers.DecimalString Numbers.DecimalZ.
From Stdlib Require Import QArith Qcanon.
From Stdlib Require Import Sorting.Sorted Sorting.Permutation.
Import ListNotations.

(** ** JavaScript strings *)

Module String.

(** A UTF-16 code unit, a number below 65536. *)
Definition char : Set := N.

Inductive string : Set :=
| EmptyString : string
| String : char -> string -> string.

(** [s.length] *)
Fixpoint length (s : string) : nat :=
  match s with
  | EmptyString => O
  | String _ r => S (length r)
  end.

(** [s1 + s2] *)
Fixpoint append (s1 s2 : string) : string :=
  match s1 with
  | EmptyString => s2
  | String c r => String c (append r s2)
  end.

(** [s1 === s2] *)
Fixpoint eqb (s1 s2 : string) : bool :=
  match s1, s2 with
  | EmptyString, EmptyString => true
  | String c1 r1, String c2 r2 => N.eqb c1 c2 && eqb r1 r2
  | _, _ => false
  end.

(** [s.startsWith(p)] *)
Fixpoint prefix (p s : string) : bool :=
  match p, s with
  | EmptyString, _ => true
  | String c p', String d s' => N.eqb c d && prefix p' s'
  | String _ _, EmptyString => false
  end.

(** The code units of [s] after the first [n]. *)
Fixpoint skip_units (n : nat) (s : string) : string :=
  match n, s with
  | S k, String _ r => skip_units k r
  | _, _ => s
  end.

(** The first [m] code units of [s], or all of [s] when it is shorter. *)
Fixpoint first_units (m : nat) (s : string) : string :=
  match m, s with
  | S k, String c r => String c (first_units k r)
  | _, _ => EmptyString
  end.

(** [s.substring(n, n + m)] *)
Definition substring (n m : nat) (s : string) : string :=
  first_units m (skip_units n s).

(** The order of [<] on strings and of [Array.prototype.sort] without a
    comparison function: code unit by code unit, a proper prefix first. *)
Fixpoint compare (s1 s2 : string) : comparison :=
  match s1, s2 with
  | EmptyString, EmptyString => Eq
  | EmptyString, String _ _ => Lt
  | String _ _, EmptyString => Gt
  | String c1 r1, String c2 r2 =>
      match N.compare c1 c2 with
      | Eq => compare r1 r2
      | Lt => Lt
      | Gt => Gt
      end
  end.

(** String literals of this file are ASCII text: a byte below 128 is the
    code unit of the same value. *)
Fixpoint of_bytes (l : list Byte.byte) : option string :=
  match l with
  | [] => Some EmptyString
  | b :: r =>
      if N.ltb (Byte.to_N b) 128
      then option_map (String (Byte.to_N b)) (of_bytes r)
      else None
  end.

Fixpoint to_bytes (s : string) : option (list Byte.byte) :=
  match s with
  | EmptyString => Some []
  | String c r =>
      if N.ltb c 128
      then match Byte.of_N c, to_bytes r with
           | Some b, Some l => Some (b :: l)
           | _, _ => None
           end
      else None
  end.

(** The code units of a text of the Standard Library's 8-bit characters,
    which is how decimal numerals are printed. *)
Fixpoint of_ascii (s : Stdlib.Strings.String.string) : string :=
  match s with
  | Stdlib.Strings.String.EmptyString => EmptyString
  | Stdlib.Strings.String.String a r =>
      String (Stdlib.Strings.Ascii.N_of_ascii a) (of_ascii r)
  end.

Declare Scope js_scope.
Delimit Scope js_scope with js.
Bind Scope js_scope with string.
Bind Scope N_scope with char.
String Notation string of_bytes to_bytes : js_scope.
Notation "s1 ++ s2" := (append s1 s2) : js_scope.

Definition string_dec (s1 s2 : string) : {s1 = s2} + {s1 <> s2}.
Proof. decide equality. apply N.eq_dec. Defined.

End String.
Export String.

Local Open Scope js_scope.
Local Open Scope list_scope.
Local Open Scope Z_scope.

(** ** Character classes and searches *)

Module Str.

(** The class [\s] of a regular expression without the [u] flag, which is
    also what [String.prototype.trim] and [Number.parseInt] skip: the white
    space and the line terminators of ECMAScript (tab, line feed, vertical
    tab, form feed, carriage return, space, no-break space, ogham space mark,
    en quad to hair space, line and paragraph separator, narrow no-break
    space, medium mathematical space, ideographic space, byte order mark).
    The class [[\s\n]] of [parseNames] is the same class, the line feed being
    in [\s]. *)
Definition is_ws (c : char) : bool :=
  ((9 <=? c) && (c <=? 13) || (c =? 32) || (c =? 160) || (c =? 5760)
   || (8192 <=? c) && (c <=? 8202) || (c =? 8232) || (c =? 8233)
   || (c =? 8239) || (c =? 8287) || (c =? 12288) || (c =? 65279))%N.

Fixpoint no_ws (s : string) : bool :=
  match s with
  | EmptyString => true
  | String c r => negb (is_ws c) && no_ws r
  end.

Fixpoint all_ws (s : string) : bool :=
  match s with
  | EmptyString => true
  | String c r => is_ws c && all_ws r
  end.

Definition is_empty (s : string) : bool :=
  match s with EmptyString => true | String _ _ => false end.

(** A string is truthy when it is not empty. *)
Definition truthy (s : string) : bool := negb (is_empty s).

Fixpoint trimStart (s : string) : string :=
  match s with
  | EmptyString => EmptyString
  | String c r => if is_ws c then trimStart r else s
  end.

Fixpoint trimEnd (s : string) : string :=
  match s with
  | EmptyString => EmptyString
  | String c r =>
      let r' := trimEnd r in
      if is_ws c && is_empty r' then EmptyString else String c r'
  end.

Definition trim (s : string) : string := trimEnd (trimStart s).

(** [s.split(/[\s\n]+/)]: the pieces of [s] between maximal runs of
    whitespace.  [cur] is the piece being read and [in_run] tells that the
    previous character belonged to a separator.  A separator at either end
    leaves an empty piece there, and the empty string has the single piece
    [""], as in JavaScript. *)
Fixpoint split_go (s : string) (cur : string) (in_run : bool) : list string :=
  match s with
  | EmptyString => [cur]
  | String c r =>
      if is_ws c then
        if in_run then split_go r cur true
        else cur :: split_go r EmptyString true
      else split_go r (cur ++ String c EmptyString)%js false
  end.

Definition split_ws (s : string) : list string := split_go s EmptyString false.

(** [s.startsWith(p)] *)
Definition startsWith (s p : string) : bool := String.prefix p s.

(** [s.includes(sub)] *)
Fixpoint includes (s sub : string) : bool :=
  String.prefix sub s ||
  match s with
  | EmptyString => false
  | String _ r => includes r sub
  end.

End Str.

(** ** Name parsing ([parseNames], page.tsx lines 273-278) *)

Definition parseNames (input : string) : list string :=
  filter (fun name => (0 <? Z.of_nat (String.length name)))
         (map Str.trim (Str.split_ws input)).

(** The words of a string read in one pass: the maximal runs of characters
    that are not whitespace.  This is the reading of "split on runs of
    whitespace into non-empty tokens" that [parseNames] is compared with. *)
Fixpoint words_go (s : string) (cur : string) : list string :=
  match s with
  | EmptyString => if Str.is_empty cur then [] else [cur]
  | String c r =>
      if Str.is_ws c then
        if Str.is_empty cur then words_go r EmptyString
        else cur :: words_go r EmptyString
      else words_go r (cur ++ String c EmptyString)%js
  end.

Definition words (s : string) : list string := words_go s EmptyString.

(** ** Records ([interface Record], page.tsx lines 18-25) *)

Inductive RecordType := overtime | leave.
Inductive Duration := full | morning | afternoon.

Definition type_text (t : RecordType) : string :=
  match t with overtime => "overtime" | leave => "leave" end.

Definition duration_text (d : Duration) : string :=
  match d with full => "full" | morning => "morning" | afternoon => "afternoon" end.

(** [interface Record] of page.tsx, which has the fields of [RecordData] in
    the SQLite service. *)
Record Rec := mkRec {
  id : option Z;
  names : list string;
  date : string;
  type : RecordType;
  duration : Duration;
  created_at : option string
}.

(** [Omit<Record, "id">], the argument of [saveRecord]. *)
Record Draft := mkDraft {
  d_names : list string;
  d_date : string;
  d_type : RecordType;
  d_duration : Duration;
  d_created_at : option string
}.

(** An element of the array kept in [localStorage], as [JSON.parse] returns
    it: records written by earlier versions may lack [duration] and
    [created_at]. *)
Record StoredRecord := mkStored {
  s_id : option Z;
  s_names : list string;
  s_date : string;
  s_type : RecordType;
  s_duration : option Duration;
  s_created_at : option string
}.

(** What [JSON.stringify] writes for a [Rec]. *)
Definition to_stored (r : Rec) : StoredRecord :=
  {| s_id := id r; s_names := names r; s_date := date r; s_type := type r;
     s_duration := Some (duration r); s_created_at := created_at r |}.

(** [id: number | string], the argument of [deleteRecord]. *)
Inductive IdArg := IdNumber (n : Z) | IdString (s : string).

(** [Number.prototype.toString] on a safe integer: the decimal digits, after
    a minus sign for a negative number. *)
Definition number_toString (n : Z) : string :=
  String.of_ascii (NilZero.string_of_int (Z.to_int n)).

Definition id_toString (i : IdArg) : string :=
  match i with IdNumber n => number_toString n | IdString s => s end.

(** [a || b] on an optional string. *)
Definition str_or (a : option string) (b : string) : string :=
  match a with
  | Some s => if Str.truthy s then s else b
  | None => b
  end.

(** ** The environment *)

(** One reading of the clock, in the three forms the program asks for:
    [Date.now()], [new Date().toISOString()] and SQLite's
    [CURRENT_TIMESTAMP]. *)
Record Instant := mkInstant { ms : Z; iso : string; sql : string }.

(** A row of the table [records]. *)
Record Row := mkRow {
  row_id : Z;
  row_names : list string;
  row_date : string;
  row_type : RecordType;
  row_duration : Duration;
  row_created_at : string
}.

(** The path between [fetch] and the route handlers. *)
Inductive Transport := Up | RequestLost | ResponseLost.

(** Everything the store reads or writes.  No operation moves the clock:
    time passes between operations, by [set_clock]. *)
Record World := mkWorld {
  clock : Instant;
  window_defined : bool;                      (* typeof window !== "undefined" *)
  local_item : option (list StoredRecord);    (* localStorage["attendance-records"] *)
  transport : Transport;
  db_fails : bool;                            (* SQLite statements throw *)
  db_rows : list Row;
  db_seq : Z                                  (* sqlite_sequence of AUTOINCREMENT *)
}.

Definition set_clock (t : Instant) (w : World) : World :=
  mkWorld t (window_defined w) (local_item w) (transport w)
          (db_fails w) (db_rows w) (db_seq w).

Definition set_local (l : option (list StoredRecord)) (w : World) : World :=
  mkWorld (clock w) (window_defined w) l (transport w)
          (db_fails w) (db_rows w) (db_seq w).

Definition set_db (rows : list Row) (seq : Z) (w : World) : World :=
  mkWorld (clock w) (window_defined w) (local_item w) (transport w)
          (db_fails w) rows seq.

(** The array held in local storage ([[]] when the key is absent). *)
Definition stored (w : World) : list StoredRecord :=
  match local_item w with Some l => l | None => [] end.

(** ** The ephemeral backend (page.tsx lines 102-141) *)

(** The object built by the [map] callback of [getLocalRecords]. *)
Definition normalise (now : Instant) (record : StoredRecord) : Rec :=
  {| id := s_id record; names := s_names record; date := s_date record;
     type := s_type record;
     duration := match s_duration record with Some d => d | None => full end;
     created_at := Some (str_or (s_created_at record) (iso now)) |}.

Definition getLocalRecords (w : World) : list Rec :=
  if negb (window_defined w) then []
  else match local_item w with
       | Some loadedRecords => map (normalise (clock w)) loadedRecords
       | None => []
       end.

Definition saveLocalRecord (record : Draft) (w : World) : Rec * World :=
  let newRecord :=
    {| id := Some (ms (clock w));
       names := d_names record; date := d_date record;
       type := d_type record; duration := d_duration record;
       created_at := Some (str_or (d_created_at record) (iso (clock w))) |} in
  let existingRecords := getLocalRecords w in
  let updatedRecords := newRecord :: existingRecords in
  (newRecord,
   if window_defined w then set_local (Some (map to_stored updatedRecords)) w
   else w).

(** [record.id?.toString() !== id] *)
Definition id_differs (record : Rec) (i : string) : bool :=
  match id record with
  | Some n => negb (String.eqb (number_toString n) i)
  | None => true
  end.

Definition deleteLocalRecord (i : string) (w : World) : World :=
  let existingRecords := getLocalRecords w in
  let filteredRecords := filter (fun record => id_differs record i) existingRecords in
  if window_defined w then set_local (Some (map to_stored filteredRecords)) w
  else w.

(** ** Sorting

    [Array.prototype.sort] and [ORDER BY] with a comparison function: a stable
    insertion sort, which returns the one stable sorted arrangement whenever
    the comparison is a consistent order. *)

Fixpoint insert_by {A : Type} (cmp : A -> A -> comparison) (x : A) (l : list A)
  : list A :=
  match l with
  | [] => [x]
  | y :: r =>
      match cmp x y with
      | Gt => y :: insert_by cmp x r
      | _ => x :: y :: r
      end
  end.

Definition sort_by {A : Type} (cmp : A -> A -> comparison) (l : list A) : list A :=
  fold_right (insert_by cmp) [] l.

(** ** The durable backend (the SQLite service) *)

(** A computation of the server: it returns or throws, and may change the
    world either way. *)
Inductive Result (A : Type) : Type :=
| Ok (a : A)
| Thrown.
Arguments Ok {A} a.
Arguments Thrown {A}.

Definition Srv (A : Type) : Type := World -> Result A * World.

Definition ret {A : Type} (a : A) : Srv A := fun w => (Ok a, w).

Definition throw {A : Type} : Srv A := fun w => (Thrown, w).

Definition bind {A B : Type} (m : Srv A) (k : A -> Srv B) : Srv B :=
  fun w =>
    match m w with
    | (Ok a, w') => k a w'
    | (Thrown, w') => (Thrown, w')
    end.

Declare Scope srv_scope.
Delimit Scope srv_scope with srv.
Notation "x <- m ;; k" := (bind m (fun x => k))
  (at level 61, m at next level, right associativity) : srv_scope.

(** [try { return m } catch { return h }] *)
Definition try_or {A : Type} (m : Srv A) (h : A) : World -> A * World :=
  fun w =>
    match m w with
    | (Ok a, w') => (a, w')
    | (Thrown, w') => (h, w')
    end.

Module SQLiteService.

Definition row_record (row : Row) : Rec :=
  {| id := Some (row_id row); names := row_names row; date := row_date row;
     type := row_type row; duration := row_duration row;
     created_at := Some (row_created_at row) |}.

(** The largest rowid in the table, 0 when it is empty. *)
Definition max_rowid (rows : list Row) : Z :=
  fold_right (fun r m => Z.max (row_id r) m) 0 rows.

(** The rowid that [INTEGER PRIMARY KEY AUTOINCREMENT] gives the next row:
    one more than every rowid the table ever held. *)
Definition next_rowid (w : World) : Z := Z.max (max_rowid (db_rows w)) (db_seq w) + 1.

(** [SELECT * FROM records ORDER BY created_at DESC] *)
Definition select_all : Srv (list Row) :=
  fun w =>
    if db_fails w then (Thrown, w)
    else (Ok (sort_by (fun a b => String.compare (row_created_at b) (row_created_at a))
                      (db_rows w)), w).

(** [INSERT INTO records (names, date, type, duration) VALUES (?, ?, ?, ?)];
    the result is [lastInsertRowid].  [created_at] takes its default,
    [CURRENT_TIMESTAMP]. *)
Definition insert (nms : list string) (dt : string) (ty : RecordType) (du : Duration)
  : Srv Z :=
  fun w =>
    if db_fails w then (Thrown, w)
    else
      let rid := next_rowid w in
      (Ok rid, set_db (db_rows w ++ [mkRow rid nms dt ty du (sql (clock w))]) rid w).

(** [SELECT * FROM records WHERE id = ?] *)
Definition select_by_id (i : Z) : Srv (option Row) :=
  fun w =>
    if db_fails w then (Thrown, w)
    else (Ok (find (fun r => row_id r =? i) (db_rows w)), w).

(** [DELETE FROM records WHERE id = ?]; the result is [changes].  [None] is
    the [NaN] that [Number.parseInt] returns on text without digits, which
    equals no rowid. *)
Definition delete_by_id (i : option Z) : Srv Z :=
  fun w =>
    if db_fails w then (Thrown, w)
    else
      let hit (r : Row) := match i with Some n => row_id r =? n | None => false end in
      (Ok (Z.of_nat (List.length (filter hit (db_rows w)))),
       set_db (filter (fun r => negb (hit r)) (db_rows w)) (db_seq w) w).

Definition getAllRecords : Srv (list Rec) :=
  (rows <- select_all ;;
   ret (map row_record rows))%srv.

Definition getRecordById (i : Z) : Srv (option Rec) :=
  (row <- select_by_id i ;;
   ret (option_map row_record row))%srv.

Definition createRecord (record : Draft) : Srv Rec :=
  (rid <- insert (d_names record) (d_date record) (d_type record) (d_duration record) ;;
   newRecord <- getRecordById rid ;;
   match newRecord with
   | Some r => ret r
   | None => throw
   end)%srv.

Definition deleteRecord (i : option Z) : Srv bool :=
  (changes <- delete_by_id i ;;
   ret (0 <? changes))%srv.

End SQLiteService.

(** ** [Number.parseInt] *)

Definition digit_value (c : char) : option Z :=
  let n := Z.of_N c in
  if (48 <=? n) && (n <=? 57) then Some (n - 48)
  else if (97 <=? n) && (n <=? 122) then Some (n - 87)
  else if (65 <=? n) && (n <=? 90) then Some (n - 55)
  else None.

(** The value of the longest prefix of digits of the radix; [acc] is [None]
    until a digit has been read. *)
Fixpoint parse_digits (radix : Z) (s : string) (acc : option Z) : option Z :=
  match s with
  | EmptyString => acc
  | String c r =>
      match digit_value c with
      | Some d =>
          if d <? radix
          then parse_digits radix r
                 (Some (radix * match acc with Some a => a | None => 0 end + d))
          else acc
      | None => acc
      end
  end.

(** [Number.parseInt(s)] without a radix; [None] is [NaN]. *)
Definition parseInt (s : string) : option Z :=
  let s1 := Str.trimStart s in
  let '(neg, s2) :=
    match s1 with
    | String 45 r => (true, r)     (* - *)
    | String 43 r => (false, r)    (* + *)
    | _ => (false, s1)
    end in
  let '(radix, s3) :=
    match s2 with
    | String 48 (String 120 r) => (16, r)   (* 0x *)
    | String 48 (String 88 r) => (16, r)    (* 0X *)
    | _ => (10, s2)
    end in
  match parse_digits radix s3 None with
  | Some n => Some (if neg then - n else n)
  | None => None
  end.

(** ** The route handlers (route.ts) *)

Inductive Body :=
| BodyRecords (records : list Rec)
| BodyRecord (record : Rec)
| BodyError (error : string)
| BodyMessage (message : string).

Record Response := mkResponse { status : Z; body : Body }.

(** [response.ok] *)
Definition ok (r : Response) : bool := (200 <=? status r) && (status r <=? 299).

Inductive Request :=
| ReqGET
| ReqPOST (record : Draft)
| ReqDELETE (idParam : string).

Module Route.

Definition GET : World -> Response * World :=
  try_or (records <- SQLiteService.getAllRecords ;;
          ret (mkResponse 200 (BodyRecords records)))%srv
         (mkResponse 500 (BodyError "Failed to fetch records")).

Definition POST (body : Draft) : World -> Response * World :=
  try_or (record <- SQLiteService.createRecord body ;;
          ret (mkResponse 201 (BodyRecord record)))%srv
         (mkResponse 500 (BodyError "Failed to create record")).

(** [idParam] is [searchParams.get("id")] for the address
    [/api/records?id=${id}]. *)
Definition DELETE (idParam : string) : World -> Response * World :=
  try_or (if negb (Str.truthy idParam)
          then ret (mkResponse 400 (BodyError "Record ID is required"))
          else (success <- SQLiteService.deleteRecord (parseInt idParam) ;;
                if negb success
                then ret (mkResponse 404 (BodyError "Record not found"))
                else ret (mkResponse 200 (BodyMessage "Record deleted successfully")))%srv)
         (mkResponse 500 (BodyError "Failed to delete record")).

Definition handle (req : Request) : World -> Response * World :=
  match req with
  | ReqGET => GET
  | ReqPOST record => POST record
  | ReqDELETE idParam => DELETE idParam
  end.

End Route.

(** [await fetch(...)]: [None] when the promise is rejected.  A request can
    be lost before the handler runs, or its response after it ran. *)
Definition fetch (req : Request) (w : World) : option Response * World :=
  match transport w with
  | Up => let '(resp, w') := Route.handle req w in (Some resp, w')
  | RequestLost => (None, w)
  | ResponseLost => let '(resp, w') := Route.handle req w in (None, w')
  end.

(** ** The record store ([class StorageService], page.tsx lines 36-100) *)

Module StorageService.

Record t := mk { useSQLite : bool }.

Definition setStorageMode (b : bool) (this : t) : t := mk b.

(** The [try] block of [getRecords].  A body that is not an array makes
    [records.map] throw. *)
Definition tryGetRecords : Srv (list Rec) :=
  fun w =>
    match fetch ReqGET w with
    | (Some response, w1) =>
        if negb (ok response) then (Thrown, w1)
        else match body response with
             | BodyRecords records =>
                 (Ok (map (fun record =>
                             mkRec (id record) (names record) (date record)
                                   (type record) (duration record)
                                   (Some (str_or (created_at record) (iso (clock w1)))))
                          records), w1)
             | _ => (Thrown, w1)
             end
    | (None, w1) => (Thrown, w1)
    end.

Definition getRecords (this : t) (w : World) : list Rec * World :=
  if useSQLite this then
    match tryGetRecords w with
    | (Ok records, w1) => (records, w1)
    | (Thrown, w1) => (getLocalRecords w1, w1)
    end
  else (getLocalRecords w, w).

(** The [try] block of [saveRecord].  The handler answers a successful
    [POST] with the record only; any other body is taken as a failure. *)
Definition trySaveRecord (record : Draft) : Srv Rec :=
  fun w =>
    match fetch (ReqPOST record) w with
    | (Some response, w1) =>
        if negb (ok response) then (Thrown, w1)
        else match body response with
             | BodyRecord savedRecord => (Ok savedRecord, w1)
             | _ => (Thrown, w1)
             end
    | (None, w1) => (Thrown, w1)
    end.

Definition saveRecord (this : t) (record : Draft) (w : World) : Rec * World :=
  if useSQLite this then
    match trySaveRecord record w with
    | (Ok savedRecord, w1) => (savedRecord, w1)
    | (Thrown, w1) => saveLocalRecord record w1
    end
  else saveLocalRecord record w.

(** The [try] block of [deleteRecord]. *)
Definition tryDeleteRecord (i : IdArg) : Srv unit :=
  fun w =>
    match fetch (ReqDELETE (id_toString i)) w with
    | (Some response, w1) =>
        if negb (ok response) then (Thrown, w1) else (Ok tt, w1)
    | (None, w1) => (Thrown, w1)
    end.

Definition deleteRecord (this : t) (i : IdArg) (w : World) : World :=
  if useSQLite this then
    match tryDeleteRecord i w with
    | (Ok _, w1) => w1
    | (Thrown, w1) => deleteLocalRecord (id_toString i) w1
    end
  else deleteLocalRecord (id_toString i) w.

End StorageService.

(** ** The form ([addRecord], page.tsx lines 281-313) *)

(** The state of the form.  [selectedDate] is the chosen day in the form
    [format(selectedDate, "yyyy-MM-dd")] gives it. *)
Record Form := mkForm {
  nameInput : string;
  selectedDate : option string;
  durationInput : Duration
}.

Inductive AddOutcome :=
| AlertMissingInput          (* the first [alert], then [return] *)
| AlertNoValidName           (* the second [alert], then [return] *)
| Saved (newRecord : Rec).

(** The first test, [!nameInput.trim() || !selectedDate], raises the same
    alert for either cause; the day is read off [selectedDate] first so that
    it is at hand for the draft. *)
Definition addRecord (svc : StorageService.t) (form : Form) (ty : RecordType)
  (w : World) : AddOutcome * World :=
  match selectedDate form with
  | None => (AlertMissingInput, w)
  | Some day =>
      if negb (Str.truthy (Str.trim (nameInput form))) then (AlertMissingInput, w)
      else
        let nms := parseNames (nameInput form) in
        if Z.of_nat (List.length nms) =? 0 then (AlertNoValidName, w)
        else
          let '(newRecord, w') :=
            StorageService.saveRecord svc
              (mkDraft nms day ty (durationInput form) (Some (iso (clock w)))) w in
          (Saved newRecord, w')
  end.

(** ** The records view ([filteredRecords], page.tsx lines 352-360) *)

(** The filter state of the records view.  [filterDate] is the chosen day in
    the form [format(filterDate, "yyyy-MM-dd")] gives it. *)
Record ViewFilter := mkViewFilter {
  filterDate : option string;
  filterType : string;
  filterMonth : string;
  filterYear : string;
  searchName : string
}.

(** The initial state (page.tsx lines 236-240), to which the button that
    clears the filter returns. *)
Definition initialFilter : ViewFilter := mkViewFilter None "all" "" "" "".

(** The handlers given to the selection lists ([onValueChange]). *)
Definition setFilterType (v : string) (f : ViewFilter) : ViewFilter :=
  mkViewFilter (filterDate f) v (filterMonth f) (filterYear f) (searchName f).
Definition setFilterMonth (v : string) (f : ViewFilter) : ViewFilter :=
  mkViewFilter (filterDate f) (filterType f) v (filterYear f) (searchName f).
Definition setFilterYear (v : string) (f : ViewFilter) : ViewFilter :=
  mkViewFilter (filterDate f) (filterType f) (filterMonth f) v (searchName f).

(** The value of the first item of each of the three selection lists
    ([<SelectItem value="all">], page.tsx lines 532, 549 and 587). *)
Definition allItem : string := "all".

Definition matchesDate (f : ViewFilter) (record : Rec) : bool :=
  match filterDate f with
  | None => true
  | Some day => String.eqb (date record) day
  end.

Definition matchesType (f : ViewFilter) (record : Rec) : bool :=
  String.eqb (filterType f) "all" || String.eqb (type_text (type record)) (filterType f).

Definition matchesMonth (f : ViewFilter) (record : Rec) : bool :=
  negb (Str.truthy (filterMonth f)) || Str.startsWith (date record) (filterMonth f).

Definition matchesYear (f : ViewFilter) (record : Rec) : bool :=
  negb (Str.truthy (filterYear f)) || Str.startsWith (date record) (filterYear f).

(** [String.prototype.toLowerCase] is the host's: it follows the case
    mappings of Unicode. *)
Definition matchesName (toLowerCase : string -> string)
    (f : ViewFilter) (record : Rec) : bool :=
  negb (Str.truthy (searchName f)) ||
  existsb (fun name => Str.includes (toLowerCase name) (toLowerCase (searchName f)))
          (names record).

Definition matchesView (toLowerCase : string -> string)
    (f : ViewFilter) (record : Rec) : bool :=
  matchesDate f record && matchesType f record && matchesMonth f record
  && matchesYear f record && matchesName toLowerCase f record.

Definition filteredRecords (toLowerCase : string -> string)
    (f : ViewFilter) (records : list Rec) : list Rec :=
  filter (matchesView toLowerCase f) records.

(** ** Statistics ([statistics], page.tsx lines 363-399) *)

Record Statistics := mkStatistics {
  name : string;
  overtimeCount : Z;
  leaveCount : Z;
  overtimeDays : Qc;
  leaveDays : Qc
}.

Record StatsFilter := mkStatsFilter {
  statsFilterType : string;
  statsFilterMonth : string;
  statsFilterYear : string
}.

Definition statsMatches (f : StatsFilter) (record : Rec) : bool :=
  (String.eqb (statsFilterType f) "all"
   || String.eqb (type_text (type record)) (statsFilterType f))
  && (String.eqb (statsFilterMonth f) "all"
      || Str.startsWith (date record) (statsFilterMonth f))
  && (String.eqb (statsFilterYear f) "all"
      || Str.startsWith (date record) (statsFilterYear f)).

(** [Map<string, Statistics>]: the entries in the order of their insertion,
    which is the order [values()] walks them in. *)
Definition StatsMap : Type := list (string * Statistics).

Definition map_has (m : StatsMap) (k : string) : bool :=
  existsb (fun e => String.eqb (fst e) k) m.

Definition map_get (m : StatsMap) (k : string) : option Statistics :=
  option_map snd (find (fun e => String.eqb (fst e) k) m).

(** [m.set(k, v)]: a new key goes last, a known key keeps its place. *)
Fixpoint map_set (m : StatsMap) (k : string) (v : Statistics) : StatsMap :=
  match m with
  | [] => [(k, v)]
  | e :: r => if String.eqb (fst e) k then (k, v) :: r else e :: map_set r k v
  end.

Definition dayValue (record : Rec) : Qc :=
  match duration record with
  | full => 1%Qc
  | _ => Q2Qc (1 # 2)
  end.

(** The two branches that update [stats]. *)
Definition increment (record : Rec) (stats : Statistics) : Statistics :=
  match type record with
  | overtime =>
      mkStatistics (name stats) (overtimeCount stats + 1) (leaveCount stats)
                   (overtimeDays stats + dayValue record)%Qc (leaveDays stats)
  | leave =>
      mkStatistics (name stats) (overtimeCount stats) (leaveCount stats + 1)
                   (overtimeDays stats) (leaveDays stats + dayValue record)%Qc
  end.

(** The body of the inner [forEach].  The object that [get] returns is the
    one the map holds, so updating it updates the entry in place. *)
Definition visit (record : Rec) (statsMap : StatsMap) (nm : string) : StatsMap :=
  let statsMap1 :=
    if negb (map_has statsMap nm)
    then map_set statsMap nm (mkStatistics nm 0 0 0%Qc 0%Qc)
    else statsMap in
  match map_get statsMap1 nm with
  | Some stats => map_set statsMap1 nm (increment record stats)
  | None => statsMap1
  end.

Definition accumulate (records : list Rec) (statsMap : StatsMap) : StatsMap :=
  fold_left (fun m record => fold_left (visit record) (names record) m) records statsMap.

(** [localeCompare] is the comparison of the host's locale; the sign of its
    result is a [comparison]. *)
Definition statistics (localeCompare : string -> string -> comparison)
  (f : StatsFilter) (records : list Rec) : list Statistics :=
  let statsFilteredRecords := filter (statsMatches f) records in
  sort_by (fun a b => localeCompare (name a) (name b))
          (map snd (accumulate statsFilteredRecords [])).

(** ** Vocabulary of the statements *)

(** The stored record carries an identifier whose text is [i]. *)
Definition stored_has_id (i : string) (s : StoredRecord) : bool :=
  match s_id s with
  | Some n => String.eqb (number_toString n) i
  | None => false
  end.

(** The stored record has the two fields that reading would otherwise fill
    in; every record that [saveLocalRecord] writes is of this kind as long
    as the clock's text is not empty. *)
Definition complete (s : StoredRecord) : bool :=
  match s_duration s, s_created_at s with
  | Some _, Some c => Str.truthy c
  | _, _ => false
  end.

Definition names_eqb (a b : list string) : bool :=
  if list_eq_dec string_dec a b then true else false.

Definition type_eqb (a b : RecordType) : bool :=
  String.eqb (type_text a) (type_text b).

Definition duration_eqb (a b : Duration) : bool :=
  String.eqb (duration_text a) (duration_text b).

(** The record has the fields of the draft and the identifier [i]. *)
Definition matches_draft (d : Draft) (i : Z) (r : Rec) : bool :=
  names_eqb (names r) (d_names d) && String.eqb (date r) (d_date d)
  && type_eqb (type r) (d_type d) && duration_eqb (duration r) (d_duration d)
  && match id r with Some n => n =? i | None => false end.

(** The part of the world that the ephemeral backend reads. *)
Definition same_local (w w1 : World) : Prop :=
  local_item w1 = local_item w /\ clock w1 = clock w
  /\ window_defined w1 = window_defined w.

(** The durable attempt failed: [fetch] was rejected, or the response is not
    [ok]. *)
Definition attempt_failed (o : option Response) : bool :=
  match o with
  | None => true
  | Some response => negb (ok response)
  end.

(** The record a working database returns for a draft. *)
Definition created (d : Draft) (w : World) : Rec :=
  mkRec (Some (SQLiteService.next_rowid w)) (d_names d) (d_date d) (d_type d)
        (d_duration d) (Some (sql (clock w))).

Definition inserted (d : Draft) (w : World) : World :=
  set_db (db_rows w ++ [mkRow (SQLiteService.next_rowid w) (d_names d) (d_date d)
                              (d_type d) (d_duration d) (sql (clock w))])
         (SQLiteService.next_rowid w) w.

(** The reference aggregation.  [mentions nm ty records] has one element for
    each record of type [ty] and each occurrence of [nm] among its names;
    the count of a name is the number of its mentions and its day total the
    sum of their day equivalents. *)
Definition day_equivalent (d : Duration) : Qc :=
  match d with
  | full => 1%Qc
  | morning => Q2Qc (1 # 2)
  | afternoon => Q2Qc (1 # 2)
  end.

Definition mentions (nm : string) (ty : RecordType) (records : list Rec) : list Rec :=
  flat_map (fun r => if type_eqb (type r) ty
                     then repeat r (count_occ string_dec (names r) nm)
                     else [])
           records.

Definition reference_count (nm : string) (ty : RecordType) (records : list Rec) : Z :=
  Z.of_nat (List.length (mentions nm ty records)).

Definition reference_days (nm : string) (ty : RecordType) (records : list Rec) : Qc :=
  fold_right (fun r acc => (day_equivalent (duration r) + acc)%Qc) 0%Qc
             (mentions nm ty records).

(** The entry a name has before anything is counted. *)
Definition zero_stats (nm : string) : Statistics := mkStatistics nm 0 0 0%Qc 0%Qc.

(** The entry of [k], or the entry it would start from. *)
Definition val (m : StatsMap) (k : string) : Statistics :=
  match map_get m k with Some s => s | None => zero_stats k end.

(** Every entry is filed under its own name. *)
Definition keyed (m : StatsMap) : Prop :=
  Forall (fun e => name (snd e) = fst e) m.

(** What the visits of the records [rs] do to the entry of the name [k]. *)
Definition per_name (k : string) (rs : list Rec) (s : Statistics) : Statistics :=
  fold_left (fun s r => Nat.iter (count_occ string_dec (names r) k) (increment r) s) rs s.

Definition day_sum (l : list Rec) : Qc :=
  fold_right (fun r acc => (day_equivalent (duration r) + acc)%Qc) 0%Qc l.

(** ** Sample values *)

Definition sample_instant : Instant :=
  mkInstant 1700000000000 "2023-11-14T22:13:20.000Z" "2023-11-14 22:13:20".

Definition sample_later : Instant :=
  mkInstant 1700000060000 "2023-11-14T22:14:20.000Z" "2023-11-14 22:14:20".

(** A browser whose local storage holds [l], with the server reachable and
    its table empty. *)
Definition browser (l : option (list StoredRecord)) : World :=
  mkWorld sample_instant true l Up false [] 0.

Definition sample_draft : Draft :=
  mkDraft ["Alice"] "2024-01-05" overtime full (Some "2023-11-14T22:13:20.000Z").

Definition sample_stored (i : option Z) : StoredRecord :=
  mkStored i ["Bob"] "2024-02-10" leave (Some morning) (Some "2023-10-01T08:00:00.000Z").

(** A record written by an earlier version of the page, without [duration]
    and [created_at]. *)
Definition legacy_stored : StoredRecord :=
  mkStored (Some 5) ["Bob"] "2024-02-10" leave None None.

Definition sample_draft2 : Draft :=
  mkDraft ["Bob"; "Carol"] "2024-01-06" leave morning (Some "2023-11-14T22:13:20.000Z").

(** The same browser with every request lost on the way. *)
Definition offline (l : option (list StoredRecord)) : World :=
  mkWorld sample_instant true l RequestLost false [] 0.

(** A draft that brings a [created_at] of its own. *)
Definition dated_draft : Draft :=
  mkDraft ["Alice"] "2024-01-05" overtime full (Some "1999-12-31T00:00:00.000Z").

Definition january_record : Rec :=
  mkRec (Some 1) ["Alice"] "2024-01-05" overtime full (Some "2024-01-05T09:00:00.000Z").

Definition stats_record1 : Rec := mkRec None ["A"] "2024-01-05" overtime full None.
Definition stats_record2 : Rec := mkRec None ["A"; "B"] "2024-02-10" leave morning None.
Definition no_stats_filter : StatsFilter := mkStatsFilter "all" "all" "all".

(** ** The rest of the component (page.tsx lines 249-349) *)

(** [loadRecords]: the list the store returns becomes the list shown. *)
Definition loadRecords (svc : StorageService.t) (w : World) : list Rec * World :=
  StorageService.getRecords svc w.

(** [r.id !== id] *)
Definition id_is_not (i : Z) (r : Rec) : bool :=
  match id r with
  | Some j => negb (j =? i)
  | None => true
  end.

(** [deleteRecord] of the component (lines 316-330); [records] is the list
    shown.  [!id] holds for a missing identifier and for 0. *)
Definition deleteRecord (svc : StorageService.t) (record : Rec) (records : list Rec)
  (w : World) : list Rec * World :=
  match id record with
  | None => (records, w)
  | Some i =>
      if i =? 0 then (records, w)
      else (filter (id_is_not i) records,
            StorageService.deleteRecord svc (IdNumber i) w)
  end.

(** What [addRecord] does to the form and to the list shown: after a save
    the new record is put in front and the form is cleared; after an alert
    both stay. *)
Definition addRecord_state (svc : StorageService.t) (form : Form) (ty : RecordType)
  (records : list Rec) (w : World) : Form * list Rec * World :=
  match addRecord svc form ty w with
  | (Saved newRecord, w') => (mkForm "" None full, newRecord :: records, w')
  | (_, w') => (form, records, w')
  end.

(** [Set<string>.add]: the elements in the order of their first insertion. *)
Definition set_add (s : list string) (x : string) : list string :=
  if existsb (String.eqb x) s then s else s ++ [x].

(** [Array.from(years).sort().reverse()]; without a comparison function
    [sort] orders strings by their code units. *)
Definition availableYears (records : list Rec) : list string :=
  rev (sort_by String.compare
         (fold_left (fun years record => set_add years (String.substring 0 4 (date record)))
                    records [])).

Definition availableMonths (f : ViewFilter) (records : list Rec) : list string :=
  rev (sort_by String.compare
         (fold_left (fun months record =>
                       if negb (Str.truthy (filterYear f))
                          || Str.startsWith (date record) (filterYear f)
                       then set_add months (String.substring 0 7 (date record))
                       else months)
                    records [])).

(** ** Further vocabulary *)

Definition set_transport (t : Transport) (w : World) : World :=
  mkWorld (clock w) (window_defined w) (local_item w) t
          (db_fails w) (db_rows w) (db_seq w).

(** The names joined by single spaces. *)
Fixpoint join_names (ns : list string) : string :=
  match ns with
  | [] => EmptyString
  | [n] => n
  | n :: rest => (n ++ String 32 (join_names rest))%js
  end.

(** The identifiers present in local storage. *)
Definition present_ids (l : list StoredRecord) : list Z :=
  flat_map (fun s => match s_id s with Some i => [i] | None => [] end) l.

Definition is_digit (c : char) : bool := ((48 <=? c) && (c <=? 57))%N.

Fixpoint digits_only (s : string) : bool :=
  match s with
  | EmptyString => true
  | String c r => is_digit c && digits_only r
  end.

(** The value of a decimal numeral read from its first digit, [a] being the
    value read so far. *)
Fixpoint uint_value (d : Decimal.uint) (a : Z) : Z :=
  match d with
  | Decimal.Nil => a
  | Decimal.D0 l => uint_value l (10 * a + 0)
  | Decimal.D1 l => uint_value l (10 * a + 1)
  | Decimal.D2 l => uint_value l (10 * a + 2)
  | Decimal.D3 l => uint_value l (10 * a + 3)
  | Decimal.D4 l => uint_value l (10 * a + 4)
  | Decimal.D5 l => uint_value l (10 * a + 5)
  | Decimal.D6 l => uint_value l (10 * a + 6)
  | Decimal.D7 l => uint_value l (10 * a + 7)
  | Decimal.D8 l => uint_value l (10 * a + 8)
  | Decimal.D9 l => uint_value l (10 * a + 9)
  end.

(** "all" read as no restriction. *)
Definition unall (v : string) : string := if String.eqb v "all" then "" else v.

(** The stamp [getRecords] puts on a record of the durable backend. *)
Definition stamp (now : Instant) (record : Rec) : Rec :=
  mkRec (id record) (names record) (date record) (type record) (duration record)
        (Some (str_or (created_at record) (iso now))).

Definition has_id (i : Z) (r : Rec) : bool :=
  match id r with Some j => j =? i | None => false end.

(** The row is the one that the address parameter [q] of [DELETE] names. *)
Definition row_hit (q : string) (r : Row) : bool :=
  match parseInt q with
  | Some n => row_id r =? n
  | None => false
  end.

(** The rows in the order [ORDER BY created_at DESC] returns them. *)
Definition newest_first (rows : list Row) : list Row :=
  sort_by (fun a b => String.compare (row_created_at b) (row_created_at a)) rows.

(** * Properties *)

(** ** Strings *)

Module StringFacts.

Lemma eqb_refl (s : string) : String.eqb s s = true.
Proof. induction s as [|c s IH]; simpl; [reflexivity|]. now rewrite N.eqb_refl. Qed.

Lemma eqb_eq (s1 s2 : string) : String.eqb s1 s2 = true <-> s1 = s2.
Proof.
  split; [|intros ->; apply eqb_refl].
  revert s2. induction s1 as [|c s1 IH]; intros [|d s2]; simpl; try discriminate.
  - reflexivity.
  - intros H. apply andb_true_iff in H as [Hc Hs].
    apply N.eqb_eq in Hc. now rewrite Hc, (IH _ Hs).
Qed.

Lemma eqb_neq (s1 s2 : string) : String.eqb s1 s2 = false <-> s1 <> s2.
Proof.
  rewrite <- eqb_eq. destruct (String.eqb s1 s2); split; congruence.
Qed.

Lemma eqb_spec (s1 s2 : string) : reflect (s1 = s2) (String.eqb s1 s2).
Proof.
  destruct (String.eqb s1 s2) eqn:E; constructor.
  - now apply eqb_eq.
  - now apply eqb_neq.
Qed.

Lemma eqb_sym (s1 s2 : string) : String.eqb s1 s2 = String.eqb s2 s1.
Proof.
  destruct (eqb_spec s1 s2) as [->|N]; [now rewrite eqb_refl|].
  symmetry. apply eqb_neq. congruence.
Qed.

Lemma compare_antisym (s1 s2 : string) : String.compare s1 s2 = CompOpp (String.compare s2 s1).
Proof.
  revert s2. induction s1 as [|c s1 IH]; intros [|d s2]; simpl; try reflexivity.
  rewrite (N.compare_antisym d c). destruct (N.compare d c); simpl; auto.
Qed.

Lemma compare_eq_iff (s1 s2 : string) : String.compare s1 s2 = Eq <-> s1 = s2.
Proof.
  revert s2. induction s1 as [|c s1 IH]; intros [|d s2]; simpl;
    try (split; [reflexivity || discriminate | reflexivity || discriminate]).
  destruct (N.compare_spec c d) as [->|L|L].
  - rewrite IH. split; [now intros -> | now intros [= ->]].
  - split; [discriminate | intros [= E _]; lia].
  - split; [discriminate | intros [= E _]; lia].
Qed.

End StringFacts.

(** ** Name parsing *)

Section NameParsing.

Local Open Scope js_scope.

Lemma is_empty_snoc (s : string) (c : char) :
  Str.is_empty (s ++ String c "") = false.
Proof. destruct s; reflexivity. Qed.

Lemma no_ws_snoc (s : string) (c : char) :
  Str.no_ws s = true -> Str.is_ws c = false ->
  Str.no_ws (s ++ String c "") = true.
Proof.
  intros Hs Hc. induction s as [|a s IH]; simpl in *.
  - now rewrite Hc.
  - apply andb_true_iff in Hs as [Ha Hs]. rewrite Ha. simpl. auto.
Qed.

Lemma trimEnd_no_ws (s : string) : Str.no_ws s = true -> Str.trimEnd s = s.
Proof.
  induction s as [|a s IH]; simpl; intros H; [reflexivity|].
  apply andb_true_iff in H as [Ha Hs].
  apply negb_true_iff in Ha. rewrite Ha. simpl. now rewrite IH.
Qed.

Lemma trim_no_ws (s : string) : Str.no_ws s = true -> Str.trim s = s.
Proof.
  intros H. unfold Str.trim.
  assert (Hs : Str.trimStart s = s).
  { destruct s as [|a s]; simpl in *; [reflexivity|].
    apply andb_true_iff in H as [Ha _]. apply negb_true_iff in Ha. now rewrite Ha. }
  rewrite Hs. now apply trimEnd_no_ws.
Qed.

Lemma length_pos_not_empty (s : string) :
  (0 <? Z.of_nat (String.length s))%Z = negb (Str.is_empty s).
Proof. destruct s; reflexivity. Qed.

(** Splitting, trimming and dropping the empty pieces reads the words. *)
Lemma split_go_words (s cur : string) (in_run : bool) :
  Str.no_ws cur = true -> (in_run = true -> cur = "") ->
  filter (fun nm => (0 <? Z.of_nat (String.length nm))%Z)
         (map Str.trim (Str.split_go s cur in_run))
  = words_go s cur.
Proof.
  revert cur in_run.
  induction s as [|c s IH]; intros cur in_run Hcur Hrun; simpl.
  - rewrite (trim_no_ws _ Hcur), length_pos_not_empty.
    now destruct (Str.is_empty cur).
  - destruct (Str.is_ws c) eqn:Hc.
    + destruct in_run.
      * rewrite (Hrun eq_refl). simpl. now apply IH.
      * simpl. rewrite (trim_no_ws _ Hcur), length_pos_not_empty.
        destruct (Str.is_empty cur); simpl; f_equal; now apply IH.
    + apply IH; [now apply no_ws_snoc | discriminate].
Qed.

Lemma parseNames_words (input : string) : parseNames input = words input.
Proof. unfold parseNames, Str.split_ws, words. now apply split_go_words. Qed.

Lemma words_go_tokens (s cur : string) :
  Str.no_ws cur = true ->
  Forall (fun nm => Str.is_empty nm = false /\ Str.no_ws nm = true) (words_go s cur).
Proof.
  revert cur. induction s as [|c s IH]; intros cur Hcur; simpl.
  - destruct (Str.is_empty cur) eqn:E; auto.
  - destruct (Str.is_ws c) eqn:Hc.
    + destruct (Str.is_empty cur) eqn:E; [now apply IH|].
      constructor; [auto | now apply IH].
    + apply IH. now apply no_ws_snoc.
Qed.

Lemma words_go_all_ws (s : string) : Str.all_ws s = true -> words_go s "" = [].
Proof.
  induction s as [|c s IH]; simpl; intros H; [reflexivity|].
  apply andb_true_iff in H as [Hc Hs]. rewrite Hc. auto.
Qed.

Lemma words_go_app (a b cur : string) (c : char) :
  Str.is_ws c = true ->
  words_go (a ++ String c b) cur = (words_go a cur ++ words_go b "")%list.
Proof.
  intros Hc. revert cur. induction a as [|x a IH]; intros cur; simpl.
  - rewrite Hc. now destruct (Str.is_empty cur).
  - destruct (Str.is_ws x); [|apply IH].
    destruct (Str.is_empty cur); simpl; now rewrite IH.
Qed.

Lemma words_go_single (t cur : string) :
  Str.no_ws t = true -> Str.is_empty (cur ++ t) = false ->
  words_go t cur = [cur ++ t].
Proof.
  revert cur. induction t as [|x t IH]; intros cur Ht He; simpl in *.
  - assert (E : cur ++ "" = cur) by (clear; induction cur; simpl; congruence).
    rewrite E in *. now rewrite He.
  - apply andb_true_iff in Ht as [Hx Ht]. apply negb_true_iff in Hx. rewrite Hx.
    assert (E : (cur ++ String x "") ++ t = cur ++ String x t)
      by (clear; induction cur; simpl; congruence).
    rewrite IH; [now rewrite E | assumption | now rewrite E].
Qed.

Lemma trim_all_ws (s : string) : Str.all_ws s = true -> Str.trim s = "".
Proof.
  unfold Str.trim. induction s as [|c s IH]; simpl; intros H; [reflexivity|].
  apply andb_true_iff in H as [Hc Hs]. rewrite Hc. auto.
Qed.

End NameParsing.

(** C8.  [parseNames] returns the words of its input: every name it returns
    is non-empty, free of whitespace and already trimmed; a whitespace
    character between two texts separates their names, and a text without
    whitespace is one name, so that "Alice  Bob\nCarol" gives Alice, Bob and
    Carol; a no-break space (U+00A0) or an ideographic space (U+3000)
    separates names as a space does.  An input that is empty or only
    whitespace has no name, and [addRecord] answers it with an alert and
    leaves the world as it was; whenever [addRecord] does save, the names it
    passes on are not empty. *)
Theorem parseNames_tokens_and_rejection :
  (forall input,
      parseNames input = words input /\
      Forall (fun nm => Str.is_empty nm = false /\ Str.no_ws nm = true /\ Str.trim nm = nm)
             (parseNames input))
  /\ (forall a b c, Str.is_ws c = true ->
        parseNames (a ++ String c b)%js = parseNames a ++ parseNames b)
  /\ (forall t, Str.no_ws t = true -> Str.is_empty t = false -> parseNames t = [t])
  /\ parseNames ("Alice  Bob" ++ String 10 "Carol")%js
     = ["Alice"; "Bob"; "Carol"]%js
  /\ parseNames ("A" ++ String 160 "B")%js = ["A"; "B"]%js
  /\ parseNames ("A" ++ String 12288 "B")%js = ["A"; "B"]%js
  /\ (forall svc form ty w, Str.all_ws (nameInput form) = true ->
        parseNames (nameInput form) = [] /\
        addRecord svc form ty w = (AlertMissingInput, w))
  /\ (forall svc form ty w r w', addRecord svc form ty w = (Saved r, w') ->
        parseNames (nameInput form) <> [] /\
        exists day, selectedDate form = Some day /\
          StorageService.saveRecord svc
            (mkDraft (parseNames (nameInput form)) day ty (durationInput form)
                     (Some (iso (clock w)))) w = (r, w')).
Proof.
  split; [|split; [|split; [|split; [|split; [|split; [|split]]]]]].
  - intros input. split; [apply parseNames_words|].
    rewrite parseNames_words. unfold words.
    eapply Forall_impl; [|apply words_go_tokens; reflexivity].
    intros nm [H1 H2]. repeat split; auto using trim_no_ws.
  - intros a b c Hc. rewrite !parseNames_words. unfold words.
    now apply words_go_app.
  - intros t Ht He. rewrite parseNames_words. unfold words.
    now apply (words_go_single t ""%js).
  - reflexivity.
  - reflexivity.
  - reflexivity.
  - intros svc form ty w Hws. split.
    + rewrite parseNames_words. now apply words_go_all_ws.
    + unfold addRecord. rewrite (trim_all_ws _ Hws). simpl.
      now destruct (selectedDate form).
  - intros svc form ty w r w' H. unfold addRecord in H.
    destruct (selectedDate form) as [day|]; [|discriminate].
    destruct (negb (Str.truthy (Str.trim (nameInput form)))); [discriminate|].
    destruct (parseNames (nameInput form)) as [|n ns] eqn:E; [discriminate|].
    simpl in H.
    destruct (StorageService.saveRecord svc _ w) as [r0 w0] eqn:Es.
    inversion H; subst. split; [discriminate|].
    exists day. split; [reflexivity|]. exact Es.
Qed.

Lemma parseNames_tokens_and_rejection_witness :
  Str.is_ws 160 = true /\
  parseNames ("Ann" ++ String 160 "Bo")%js = parseNames "Ann" ++ parseNames "Bo".
Proof.
  split; [reflexivity|].
  apply (proj1 (proj2 parseNames_tokens_and_rejection)). reflexivity.
Defined.

(** ** The ephemeral backend *)

Section Ephemeral.

Lemma of_ascii_inj (s t : Stdlib.Strings.String.string) :
  String.of_ascii s = String.of_ascii t -> s = t.
Proof.
  revert t. induction s as [|a s IH]; intros [|b t]; simpl; try discriminate.
  - reflexivity.
  - intros [= E1 E2]. f_equal; [|now apply IH].
    rewrite <- (Ascii.ascii_N_embedding a), <- (Ascii.ascii_N_embedding b).
    now rewrite E1.
Qed.

Lemma number_toString_inj (n m : Z) :
  number_toString n = number_toString m -> n = m.
Proof.
  unfold number_toString. intros H. apply of_ascii_inj in H.
  assert (P : forall z, NilZero.int_of_string (NilZero.string_of_int (Z.to_int z))
                        = Some (Z.to_int z)).
  { intros z. apply NilZero.isi; destruct z; simpl; try discriminate;
      intros [= E]; now apply (DecimalPos.Unsigned.to_uint_nonnil p). }
  pose proof (P n) as Hn. rewrite H, P in Hn.
  injection Hn as Hn. rewrite <- (DecimalZ.of_to n), <- (DecimalZ.of_to m).
  now rewrite Hn.
Qed.

Lemma id_differs_number (r : Rec) (n : Z) :
  id_differs r (number_toString n) = true <-> id r <> Some n.
Proof.
  unfold id_differs. destruct (id r) as [m|]; [|split; [discriminate|reflexivity]].
  rewrite negb_true_iff. split.
  - intros H [= ->]. now rewrite StringFacts.eqb_refl in H.
  - intros H. apply StringFacts.eqb_neq. intros E. apply H. f_equal.
    now apply number_toString_inj.
Qed.

Lemma id_differs_stored (t : Instant) (s : StoredRecord) (i : string) :
  id_differs (normalise t s) i = negb (stored_has_id i s).
Proof. unfold id_differs, stored_has_id. simpl. now destruct (s_id s). Qed.

(** Reading back what was just read changes nothing at the same instant. *)
Lemma normalise_idem (t : Instant) (s : StoredRecord) :
  normalise t (to_stored (normalise t s)) = normalise t s.
Proof.
  unfold normalise, to_stored. simpl. f_equal. f_equal.
  unfold str_or. destruct (s_created_at s) as [c|].
  - destruct (Str.truthy c) eqn:E; [now rewrite E|].
    now destruct (Str.truthy (iso t)).
  - now destruct (Str.truthy (iso t)).
Qed.

(** At a later instant too, once the first reading left a text. *)
Lemma normalise_later (t t' : Instant) (s : StoredRecord) :
  Str.truthy (iso t) = true ->
  normalise t' (to_stored (normalise t s)) = normalise t s.
Proof.
  intros Ht. unfold normalise, to_stored. simpl. f_equal. f_equal.
  unfold str_or. destruct (s_created_at s) as [c|].
  - destruct (Str.truthy c) eqn:E; [now rewrite E | now rewrite Ht].
  - now rewrite Ht.
Qed.

Lemma normalise_complete (t : Instant) (s : StoredRecord) :
  complete s = true -> to_stored (normalise t s) = s.
Proof.
  unfold complete, normalise, to_stored, str_or. destruct s as [i n d ty du c]. simpl.
  destruct du; [|discriminate]. destruct c as [c|]; [|discriminate].
  now intros ->.
Qed.

Lemma getLocalRecords_stored (w : World) :
  getLocalRecords w =
  if window_defined w then map (normalise (clock w)) (stored w) else [].
Proof.
  unfold getLocalRecords, stored.
  destruct (window_defined w); simpl; [|reflexivity].
  now destruct (local_item w).
Qed.

Lemma getLocalRecords_after_delete (w : World) (i : string) (t : Instant) :
  getLocalRecords (set_clock t (deleteLocalRecord i w)) =
  map (fun r => normalise t (to_stored r))
      (filter (fun r => id_differs r i) (getLocalRecords w)).
Proof.
  unfold deleteLocalRecord. rewrite !getLocalRecords_stored.
  destruct (window_defined w) eqn:W; simpl.
  - unfold stored. simpl. rewrite W. simpl. now rewrite map_map.
  - now rewrite W.
Qed.

Lemma getLocalRecords_after_save (w : World) (d : Draft) (t : Instant) :
  window_defined w = true ->
  getLocalRecords (set_clock t (snd (saveLocalRecord d w))) =
  map (fun r => normalise t (to_stored r))
      (fst (saveLocalRecord d w) :: getLocalRecords w).
Proof.
  intros W. unfold saveLocalRecord. simpl. rewrite W.
  rewrite getLocalRecords_stored. simpl. rewrite W. unfold stored. simpl.
  now rewrite map_map.
Qed.

Lemma filter_all {A : Type} (f : A -> bool) (l : list A) :
  (forall x, In x l -> f x = true) -> filter f l = l.
Proof.
  induction l as [|a l IH]; simpl; intros H; [reflexivity|].
  rewrite (H a (or_introl eq_refl)). f_equal. auto.
Qed.

Lemma filter_none {A : Type} (f : A -> bool) (l : list A) :
  (forall x, In x l -> f x = false) -> filter f l = [].
Proof.
  induction l as [|a l IH]; simpl; intros H; [reflexivity|].
  rewrite (H a (or_introl eq_refl)). auto.
Qed.

Lemma set_clock_same (w : World) : set_clock (clock w) w = w.
Proof. now destruct w. Qed.

End Ephemeral.

(** ** The durable attempt leaves the ephemeral backend alone *)

Ltac unfold_server :=
  cbv beta iota delta
    [Route.handle Route.GET Route.POST Route.DELETE try_or bind ret throw
     SQLiteService.getAllRecords SQLiteService.createRecord
     SQLiteService.deleteRecord SQLiteService.getRecordById
     SQLiteService.select_all SQLiteService.insert
     SQLiteService.select_by_id SQLiteService.delete_by_id].

Section Durable.

Lemma same_local_refl (w : World) : same_local w w.
Proof. now repeat split. Qed.

Lemma same_local_set_db (w : World) rows seq : same_local w (set_db rows seq w).
Proof. now repeat split. Qed.

Lemma handle_same_local (req : Request) (w : World) :
  same_local w (snd (Route.handle req w)).
Proof.
  destruct req as [|record|idParam]; unfold_server.
  - destruct (db_fails w); simpl; apply same_local_refl.
  - destruct (db_fails w) eqn:F; simpl; [apply same_local_refl|].
    rewrite F. simpl.
    match goal with |- context [find ?f ?x] => destruct (find f x) end;
      simpl; apply same_local_set_db.
  - destruct (negb (Str.truthy idParam)); simpl; [apply same_local_refl|].
    destruct (db_fails w); simpl; [apply same_local_refl|].
    match goal with |- context [negb ?x] => destruct x end;
      simpl; apply same_local_set_db.
Qed.

Lemma fetch_same_local (req : Request) (w : World) :
  same_local w (snd (fetch req w)).
Proof.
  unfold fetch. pose proof (handle_same_local req w) as H.
  destruct (transport w); [| apply same_local_refl |];
    destruct (Route.handle req w); exact H.
Qed.

Lemma same_local_getLocalRecords (w w1 : World) :
  same_local w w1 -> getLocalRecords w1 = getLocalRecords w.
Proof. intros (L & C & W). unfold getLocalRecords. now rewrite L, C, W. Qed.

Lemma same_local_stored (w w1 : World) : same_local w w1 -> stored w1 = stored w.
Proof. intros (L & _). unfold stored. now rewrite L. Qed.

Lemma getLocalRecords_set_db (w : World) rows seq :
  getLocalRecords (set_db rows seq w) = getLocalRecords w.
Proof. reflexivity. Qed.

End Durable.

(** ** Deleting on the ephemeral backend *)

Section EphemeralDelete.

Lemma map_fixed {A : Type} (f : A -> A) (l : list A) :
  (forall x, In x l -> f x = x) -> map f l = l.
Proof.
  induction l as [|a l IH]; simpl; intros H; [reflexivity|].
  rewrite (H a (or_introl eq_refl)). f_equal. auto.
Qed.

Lemma clock_deleteLocalRecord (i : string) (w : World) :
  clock (deleteLocalRecord i w) = clock w.
Proof. unfold deleteLocalRecord. now destruct (window_defined w). Qed.

Lemma in_getLocalRecords (w : World) (r : Rec) :
  In r (getLocalRecords w) ->
  exists s, In s (stored w) /\ r = normalise (clock w) s.
Proof.
  rewrite getLocalRecords_stored. destruct (window_defined w); [|contradiction].
  intros H. apply in_map_iff in H as (s & <- & Hs). eauto.
Qed.

(** Listing at the instant of the deletion shows the records that were kept,
    as they were read. *)
Lemma getLocalRecords_deleteLocalRecord (i : string) (w : World) :
  getLocalRecords (deleteLocalRecord i w) =
  filter (fun r => id_differs r i) (getLocalRecords w).
Proof.
  rewrite <- (set_clock_same (deleteLocalRecord i w)) at 1.
  rewrite clock_deleteLocalRecord, getLocalRecords_after_delete.
  apply map_fixed. intros r Hr. apply filter_In in Hr as [Hr _].
  apply in_getLocalRecords in Hr as (s & _ & ->). apply normalise_idem.
Qed.

Lemma unknown_id_keeps_all (i : string) (w : World) :
  (forall s, In s (stored w) -> stored_has_id i s = false) ->
  filter (fun r => id_differs r i) (getLocalRecords w) = getLocalRecords w.
Proof.
  intros H. apply filter_all. intros r Hr.
  apply in_getLocalRecords in Hr as (s & Hs & ->).
  now rewrite id_differs_stored, (H s Hs).
Qed.

Lemma map_fixed_inv {A : Type} (f : A -> A) (l : list A) :
  map f l = l -> forall x, In x l -> f x = x.
Proof.
  induction l as [|a l IH]; simpl; intros H x; [contradiction|].
  injection H as Ha Hl. intros [<-|Hx]; auto.
Qed.

Lemma normalise_fixed_complete (t : Instant) (s : StoredRecord) :
  Str.truthy (iso t) = true -> to_stored (normalise t s) = s -> complete s = true.
Proof.
  unfold complete, normalise, to_stored, str_or. destruct s as [i n d ty du c]. simpl.
  intros Ht [= Hd Hc]. destruct du; [|discriminate]. destruct c as [c|]; [|discriminate].
  destruct (Str.truthy c) eqn:E; [reflexivity|]. injection Hc as Hc. congruence.
Qed.

Lemma window_defined_deleteLocalRecord (i : string) (w : World) :
  window_defined (deleteLocalRecord i w) = window_defined w.
Proof. unfold deleteLocalRecord. destruct (window_defined w) eqn:W; exact W. Qed.

(** What a deletion that finds nothing to remove writes back: every stored
    record as [getLocalRecords] read it, that is, with the defaults of
    [duration] and [created_at] filled in. *)
Lemma stored_after_unknown_delete (i : string) (w : World) :
  (forall s, In s (stored w) -> stored_has_id i s = false) ->
  window_defined w = true ->
  stored (deleteLocalRecord i w)
  = map (fun s => to_stored (normalise (clock w) s)) (stored w).
Proof.
  intros Hno W. unfold deleteLocalRecord. rewrite W.
  unfold stored at 1. simpl. rewrite unknown_id_keeps_all by assumption.
  now rewrite getLocalRecords_stored, W, map_map.
Qed.

Lemma complete_store_kept (i : string) (w : World) :
  (forall s, In s (stored w) -> stored_has_id i s = false) ->
  forallb complete (stored w) = true ->
  stored (deleteLocalRecord i w) = stored w.
Proof.
  intros Hno Hc. destruct (window_defined w) eqn:W.
  - rewrite stored_after_unknown_delete by assumption.
    apply map_fixed. intros s Hs. apply normalise_complete.
    rewrite forallb_forall in Hc. auto.
  - unfold deleteLocalRecord. now rewrite W.
Qed.

(** C7.  On the ephemeral backend, a list that follows [delete(id)], at any
    later instant, holds no record with that identifier.  When no stored
    record has the identifier, the deletion removes nothing, and a list right
    after it returns what a list right before it returned; but the stored
    array is written again, each record as it was read, so a record that
    lacked [duration] or [created_at] now carries the default and the time of
    the deletion.  The stored array is the same exactly when every record
    carried both, and then a later list returns what it would have returned
    without the deletion; in any case a later list returns what the list at
    the time of the deletion returned.  The deletion is defined for every
    state and identifier. *)
Theorem delete_then_list_ephemeral :
  (forall w i t r,
      In r (getLocalRecords (set_clock t (deleteLocalRecord i w))) ->
      id_differs r i = true)
  /\ (forall w n t r,
      In r (getLocalRecords (set_clock t
              (StorageService.deleteRecord (StorageService.mk false) (IdNumber n) w))) ->
      id r <> Some n)
  /\ (forall w i,
      (forall s, In s (stored w) -> stored_has_id i s = false) ->
      getLocalRecords (deleteLocalRecord i w) = getLocalRecords w
      /\ (window_defined w = true ->
          stored (deleteLocalRecord i w)
          = map (fun s => to_stored (normalise (clock w) s)) (stored w))
      /\ (window_defined w = true -> Str.truthy (iso (clock w)) = true ->
          (stored (deleteLocalRecord i w) = stored w
           <-> forallb complete (stored w) = true))
      /\ (forallb complete (stored w) = true ->
          stored (deleteLocalRecord i w) = stored w
          /\ forall t, getLocalRecords (set_clock t (deleteLocalRecord i w))
                       = getLocalRecords (set_clock t w))
      /\ (Str.truthy (iso (clock w)) = true ->
          forall t, getLocalRecords (set_clock t (deleteLocalRecord i w))
                    = getLocalRecords w)).
Proof.
  assert (P1 : forall w i t r,
             In r (getLocalRecords (set_clock t (deleteLocalRecord i w))) ->
             id_differs r i = true).
  { intros w i t r H. rewrite getLocalRecords_after_delete in H.
    apply in_map_iff in H as (r0 & <- & H0).
    apply filter_In in H0 as [_ H0].
    unfold id_differs in *. exact H0. }
  split; [exact P1|]. split.
  - intros w n t r H. apply id_differs_number. exact (P1 _ _ _ _ H).
  - intros w i Hno. split; [|split; [|split; [|split]]].
    + rewrite getLocalRecords_deleteLocalRecord. now apply unknown_id_keeps_all.
    + now apply stored_after_unknown_delete.
    + intros W Ht. split.
      * rewrite stored_after_unknown_delete by assumption. intros E.
        apply forallb_forall. intros s Hs.
        apply (normalise_fixed_complete (clock w)); [exact Ht|].
        now apply (map_fixed_inv _ _ E).
      * now apply complete_store_kept.
    + intros Hc. pose proof (complete_store_kept i w Hno Hc) as E.
      split; [exact E|]. intros t. rewrite !getLocalRecords_stored.
      change (window_defined (set_clock t (deleteLocalRecord i w)))
        with (window_defined (deleteLocalRecord i w)).
      change (stored (set_clock t (deleteLocalRecord i w)))
        with (stored (deleteLocalRecord i w)).
      now rewrite window_defined_deleteLocalRecord, E.
    + intros Ht t. rewrite getLocalRecords_after_delete, unknown_id_keeps_all by assumption.
      apply map_fixed. intros r Hr.
      apply in_getLocalRecords in Hr as (s & _ & ->). now apply normalise_later.
Qed.

End EphemeralDelete.

Lemma delete_then_list_ephemeral_witness :
  (forall s, In s (stored (browser (Some [sample_stored (Some 5)]))) ->
             stored_has_id "7" s = false)
  /\ getLocalRecords (deleteLocalRecord "7" (browser (Some [sample_stored (Some 5)])))
     = getLocalRecords (browser (Some [sample_stored (Some 5)])).
Proof.
  assert (H : forall s, In s (stored (browser (Some [sample_stored (Some 5)]))) ->
                        stored_has_id "7" s = false).
  { intros s [<-|[]]. reflexivity. }
  split; [exact H|].
  exact (proj1 (proj2 (proj2 delete_then_list_ephemeral) _ "7"%js H)).
Defined.

(** Deleting an identifier that no stored record has does alter the stored
    collection when a record lacks [duration] or [created_at]: the record is
    written back with the default and with the time of the deletion, and a
    later list returns that time where it would have returned its own. *)
Lemma delete_unknown_id_rewrites_store :
  (forall s, In s (stored (browser (Some [legacy_stored]))) ->
             stored_has_id "7" s = false)
  /\ stored (browser (Some [legacy_stored])) = [legacy_stored]
  /\ stored (deleteLocalRecord "7" (browser (Some [legacy_stored])))
     = [mkStored (Some 5) ["Bob"] "2024-02-10" leave (Some full)
                 (Some "2023-11-14T22:13:20.000Z")]
  /\ stored (deleteLocalRecord "7" (browser (Some [legacy_stored])))
     <> stored (browser (Some [legacy_stored]))
  /\ getLocalRecords (set_clock sample_later
                        (deleteLocalRecord "7" (browser (Some [legacy_stored]))))
     <> getLocalRecords (set_clock sample_later (browser (Some [legacy_stored]))).
Proof.
  split; [intros s [<-|[]]; reflexivity|].
  split; [reflexivity|]. split; [reflexivity|].
  split; intros H; vm_compute in H; discriminate H.
Qed.

(** ** Which records a deletion removes *)

Section DeleteById.

Lemma tryDeleteRecord_world (i : IdArg) (w : World) :
  snd (StorageService.tryDeleteRecord i w) = snd (fetch (ReqDELETE (id_toString i)) w).
Proof.
  unfold StorageService.tryDeleteRecord.
  destruct (fetch (ReqDELETE (id_toString i)) w) as [[resp|] w1]; simpl; [|reflexivity].
  now destruct (negb (ok resp)).
Qed.

Lemma tryDeleteRecord_same_local (i : IdArg) (w : World) :
  same_local w (snd (StorageService.tryDeleteRecord i w)).
Proof. rewrite tryDeleteRecord_world. apply fetch_same_local. Qed.

(** Whatever the mode, a deletion through the store either leaves the
    ephemeral records as they are or filters them by the identifier's text. *)
Lemma deleteRecord_local_view (svc : StorageService.t) (i : IdArg) (w : World) :
  getLocalRecords (StorageService.deleteRecord svc i w) = getLocalRecords w \/
  getLocalRecords (StorageService.deleteRecord svc i w)
  = filter (fun r => id_differs r (id_toString i)) (getLocalRecords w).
Proof.
  unfold StorageService.deleteRecord. destruct (StorageService.useSQLite svc).
  - pose proof (tryDeleteRecord_same_local i w) as H.
    destruct (StorageService.tryDeleteRecord i w) as [[u|] w1]; simpl in H.
    + left. now apply same_local_getLocalRecords.
    + right. rewrite getLocalRecords_deleteLocalRecord.
      now rewrite (same_local_getLocalRecords _ _ H).
  - right. apply getLocalRecords_deleteLocalRecord.
Qed.

(** C10.  With the ephemeral backend selected, [deleteRecord] keeps exactly
    the records whose identifier, as text, differs from the text of the
    given one: for a number [n] the record is kept if and only if its
    identifier is not [n], and the text of [n] given as a string does what
    the number does.  A stored record without an identifier is kept by
    every deletion, in either mode of the store.  In a browser the array
    written back holds the stored records that do not have the identifier,
    in their order, as reading returns them. *)
Theorem delete_removes_by_id_text :
  (forall w i,
      getLocalRecords (StorageService.deleteRecord (StorageService.mk false) i w)
      = filter (fun r => id_differs r (id_toString i)) (getLocalRecords w))
  /\ (forall w n r,
      In r (getLocalRecords
              (StorageService.deleteRecord (StorageService.mk false) (IdNumber n) w))
      <-> In r (getLocalRecords w) /\ id r <> Some n)
  /\ (forall w n,
      StorageService.deleteRecord (StorageService.mk false) (IdString (number_toString n)) w
      = StorageService.deleteRecord (StorageService.mk false) (IdNumber n) w)
  /\ (forall svc w i s,
      window_defined w = true -> In s (stored w) -> s_id s = None ->
      In (normalise (clock w) s)
         (getLocalRecords (StorageService.deleteRecord svc i w)))
  /\ (forall w i,
      window_defined w = true ->
      stored (StorageService.deleteRecord (StorageService.mk false) i w)
      = map (fun s => to_stored (normalise (clock w) s))
            (filter (fun s => negb (stored_has_id (id_toString i) s)) (stored w))).
Proof.
  split; [|split; [|split; [|split]]]; cycle 4.
  - intros w i W. unfold StorageService.deleteRecord, deleteLocalRecord. simpl.
    rewrite W, getLocalRecords_stored, W. unfold stored at 1. simpl.
    generalize (stored w). intros l. induction l as [|s l IH]; [reflexivity|].
    simpl. rewrite id_differs_stored.
    destruct (negb (stored_has_id (id_toString i) s)); simpl; now rewrite IH.
  - intros w i. apply getLocalRecords_deleteLocalRecord.
  - intros w n r. unfold StorageService.deleteRecord. simpl.
    rewrite getLocalRecords_deleteLocalRecord, filter_In.
    now rewrite id_differs_number.
  - reflexivity.
  - intros svc w i s W Hs Hid.
    assert (Hin : In (normalise (clock w) s) (getLocalRecords w)).
    { rewrite getLocalRecords_stored, W. now apply in_map. }
    destruct (deleteRecord_local_view svc i w) as [E|E]; rewrite E; [exact Hin|].
    apply filter_In. split; [exact Hin|].
    unfold id_differs. simpl. now rewrite Hid.
Qed.

Lemma delete_removes_by_id_text_witness :
  window_defined (browser (Some [sample_stored None])) = true /\
  In (sample_stored None) (stored (browser (Some [sample_stored None]))) /\
  s_id (sample_stored None) = None /\
  In (normalise sample_instant (sample_stored None))
     (getLocalRecords
        (StorageService.deleteRecord (StorageService.mk true) (IdString "undefined")
           (browser (Some [sample_stored None])))).
Proof.
  split; [reflexivity|]. split; [now left|]. split; [reflexivity|].
  apply (proj1 (proj2 (proj2 (proj2 delete_removes_by_id_text)))
           (StorageService.mk true) (browser (Some [sample_stored None]))
           (IdString "undefined") (sample_stored None));
    [reflexivity | now left | reflexivity].
Defined.

End DeleteById.

(** ** Creating on the ephemeral backend *)

Section EphemeralCreate.

Lemma matches_draft_new (d : Draft) (w : World) (t : Instant) :
  matches_draft d (ms (clock w))
    (normalise t (to_stored (fst (saveLocalRecord d w)))) = true.
Proof.
  unfold matches_draft, names_eqb, type_eqb, duration_eqb. simpl.
  destruct (list_eq_dec string_dec (d_names d) (d_names d)); [|congruence].
  now rewrite !StringFacts.eqb_refl, Z.eqb_refl.
Qed.

(** Two creations at one reading of the clock receive one identifier. *)
Lemma saveLocalRecord_same_instant (d1 d2 : Draft) (w : World) :
  id (fst (saveLocalRecord d2 (snd (saveLocalRecord d1 w))))
  = id (fst (saveLocalRecord d1 w)).
Proof. unfold saveLocalRecord. simpl. now destruct (window_defined w). Qed.

(** When no stored record carries the identifier that the clock gives, a
    list that follows the creation starts with the new record, and no other
    record of the list has the draft's fields and that identifier. *)
Lemma create_then_list_fresh (d : Draft) (w : World) (t : Instant) :
  window_defined w = true ->
  (forall s, In s (stored w) -> s_id s <> Some (ms (clock w))) ->
  exists r rest,
    getLocalRecords (set_clock t (snd (saveLocalRecord d w))) = r :: rest
    /\ id r = Some (ms (clock w))
    /\ names r = d_names d /\ date r = d_date d /\ type r = d_type d
    /\ duration r = d_duration d
    /\ (Str.truthy (iso (clock w)) = true -> r = fst (saveLocalRecord d w))
    /\ filter (matches_draft d (ms (clock w)))
              (getLocalRecords (set_clock t (snd (saveLocalRecord d w)))) = [r].
Proof.
  intros W Hfresh. rewrite getLocalRecords_after_save by assumption.
  simpl map.
  eexists. eexists. split; [reflexivity|].
  repeat (split; [reflexivity|]). split.
  - intros Ht. unfold normalise, to_stored, saveLocalRecord. simpl. f_equal. f_equal.
    unfold str_or. destruct (d_created_at d) as [c|].
    + destruct (Str.truthy c) eqn:E; [now rewrite E | now rewrite Ht].
    + now rewrite Ht.
  - simpl filter. rewrite matches_draft_new. f_equal.
    apply filter_none. intros x Hx.
    apply in_map_iff in Hx as (r0 & <- & Hr0).
    apply in_getLocalRecords in Hr0 as (s & Hs & ->).
    unfold matches_draft. simpl.
    destruct (s_id s) as [n|] eqn:En; [|now rewrite andb_false_r].
    assert (n <> ms (clock w)) as Hn by (intros ->; now apply (Hfresh s Hs)).
    apply Z.eqb_neq in Hn. rewrite Hn. now rewrite andb_false_r.
Qed.

(** C2.  Starting from an empty store, whose identifiers are trivially
    distinct, two creations at the same reading of the clock give both new
    records the identifier 1700000000000, and the identifiers of the stored
    collection are no longer distinct. *)
Theorem create_twice_same_instant_collides :
  let w0 := browser None in
  let r1 := fst (StorageService.saveRecord (StorageService.mk false) sample_draft w0) in
  let w1 := snd (StorageService.saveRecord (StorageService.mk false) sample_draft w0) in
  let r2 := fst (StorageService.saveRecord (StorageService.mk false) sample_draft2 w1) in
  let w2 := snd (StorageService.saveRecord (StorageService.mk false) sample_draft2 w1) in
  NoDup (map id (getLocalRecords w0))
  /\ id r1 = Some 1700000000000 /\ id r2 = Some 1700000000000
  /\ map id (getLocalRecords w2) = [Some 1700000000000; Some 1700000000000]
  /\ ~ NoDup (map id (getLocalRecords w2)).
Proof.
  cbv zeta. split; [constructor|]. split; [reflexivity|]. split; [reflexivity|].
  split; [reflexivity|].
  intros H. change (NoDup [Some 1700000000000; Some 1700000000000]) in H.
  inversion H as [|x l Hin _]; subst. apply Hin. now left.
Qed.

(** C6.  After the same draft is created twice at one reading of the clock,
    a later list holds two records that have the draft's fields and the
    identifier just assigned, not one. *)
Theorem create_then_list_two_matches :
  let w0 := browser None in
  let w1 := snd (saveLocalRecord sample_draft w0) in
  let w2 := snd (saveLocalRecord sample_draft w1) in
  id (fst (saveLocalRecord sample_draft w1)) = Some (ms (clock w1))
  /\ List.length
       (filter (matches_draft sample_draft (ms (clock w1)))
               (getLocalRecords (set_clock sample_later w2))) = 2%nat.
Proof. cbv zeta. split; reflexivity. Qed.

End EphemeralCreate.

(** ** Fallback *)

Section Fallback.

Lemma saveLocalRecord_same_local (d : Draft) (w w1 : World) :
  same_local w w1 ->
  fst (saveLocalRecord d w1) = fst (saveLocalRecord d w)
  /\ same_local (snd (saveLocalRecord d w)) (snd (saveLocalRecord d w1)).
Proof.
  intros H. pose proof (same_local_getLocalRecords _ _ H) as G.
  destruct H as (L & C & W). unfold saveLocalRecord. rewrite G, C, W. simpl.
  split; [reflexivity|].
  destruct (window_defined w) eqn:E; unfold same_local; simpl;
    repeat split; congruence.
Qed.

Lemma deleteLocalRecord_same_local (i : string) (w w1 : World) :
  same_local w w1 ->
  same_local (deleteLocalRecord i w) (deleteLocalRecord i w1).
Proof.
  intros H. pose proof (same_local_getLocalRecords _ _ H) as G.
  destruct H as (L & C & W). unfold deleteLocalRecord. rewrite G, W.
  destruct (window_defined w) eqn:E; unfold same_local; simpl;
    repeat split; congruence.
Qed.

Lemma handle_db_fails (req : Request) (w : World) :
  db_fails w = true -> ok (fst (Route.handle req w)) = false.
Proof.
  intros F. destruct req as [|record|idParam]; unfold_server.
  - now rewrite F.
  - now rewrite F.
  - destruct (negb (Str.truthy idParam)); cbv beta; [reflexivity|].
    now rewrite F.
Qed.

Lemma fetch_fails (req : Request) (w : World) :
  transport w <> Up \/ db_fails w = true ->
  attempt_failed (fst (fetch req w)) = true.
Proof.
  intros H. unfold fetch. pose proof (handle_db_fails req w) as D.
  destruct (transport w); destruct (Route.handle req w) as [resp w']; simpl in *;
    try reflexivity.
  destruct H as [H|H]; [congruence|]. now rewrite (D H).
Qed.

(** C3.  With the durable backend selected, whenever the durable attempt
    fails ([fetch] rejected, or a response that is not [ok]), each store
    operation is the ephemeral operation run on the world the attempt left,
    in which the ephemeral backend is as it was: [getRecords] returns the
    ephemeral list, [saveRecord] the record the ephemeral creation returns,
    [deleteRecord] performs the ephemeral deletion.  The store's operations
    are total, so nothing of the failure reaches the caller.  A lost request,
    a lost response and a failing database are such failures. *)
Theorem store_falls_back_to_ephemeral :
  forall this w, StorageService.useSQLite this = true ->
  (forall o w1, fetch ReqGET w = (o, w1) -> attempt_failed o = true ->
      StorageService.getRecords this w = (getLocalRecords w1, w1)
      /\ getLocalRecords w1 = getLocalRecords w)
  /\ (forall d o w1, fetch (ReqPOST d) w = (o, w1) -> attempt_failed o = true ->
      StorageService.saveRecord this d w = saveLocalRecord d w1
      /\ fst (saveLocalRecord d w1) = fst (saveLocalRecord d w)
      /\ getLocalRecords (snd (saveLocalRecord d w1))
         = getLocalRecords (snd (saveLocalRecord d w)))
  /\ (forall i o w1, fetch (ReqDELETE (id_toString i)) w = (o, w1) ->
      attempt_failed o = true ->
      StorageService.deleteRecord this i w = deleteLocalRecord (id_toString i) w1
      /\ getLocalRecords (deleteLocalRecord (id_toString i) w1)
         = getLocalRecords (deleteLocalRecord (id_toString i) w))
  /\ (transport w <> Up \/ db_fails w = true ->
      forall req, attempt_failed (fst (fetch req w)) = true).
Proof.
  intros this w U. split; [|split; [|split]].
  - intros o w1 E F. pose proof (fetch_same_local ReqGET w) as S. rewrite E in S.
    simpl in S. split; [|now apply same_local_getLocalRecords].
    unfold StorageService.getRecords, StorageService.tryGetRecords. rewrite U, E.
    destruct o as [resp|]; simpl in F; [|reflexivity]. now rewrite F.
  - intros d o w1 E F. pose proof (fetch_same_local (ReqPOST d) w) as S.
    rewrite E in S. simpl in S.
    destruct (saveLocalRecord_same_local d w w1 S) as [S1 S2].
    split; [|split; [exact S1 | now apply same_local_getLocalRecords]].
    unfold StorageService.saveRecord, StorageService.trySaveRecord. rewrite U, E.
    destruct o as [resp|]; simpl in F; [|reflexivity]. now rewrite F.
  - intros i o w1 E F. pose proof (fetch_same_local (ReqDELETE (id_toString i)) w) as S.
    rewrite E in S. simpl in S.
    split; [|apply same_local_getLocalRecords; now apply deleteLocalRecord_same_local].
    unfold StorageService.deleteRecord, StorageService.tryDeleteRecord. rewrite U, E.
    destruct o as [resp|]; simpl in F; [|reflexivity]. now rewrite F.
  - intros H req. now apply fetch_fails.
Qed.

End Fallback.

Lemma store_falls_back_to_ephemeral_witness :
  StorageService.useSQLite (StorageService.mk true) = true
  /\ fetch ReqGET (offline (Some [sample_stored (Some 5)]))
     = (None, offline (Some [sample_stored (Some 5)]))
  /\ attempt_failed None = true
  /\ StorageService.getRecords (StorageService.mk true) (offline (Some [sample_stored (Some 5)]))
     = (getLocalRecords (offline (Some [sample_stored (Some 5)])),
        offline (Some [sample_stored (Some 5)])).
Proof.
  split; [reflexivity|]. split; [reflexivity|]. split; [reflexivity|].
  exact (proj1 (proj1 (store_falls_back_to_ephemeral (StorageService.mk true)
                         (offline (Some [sample_stored (Some 5)])) eq_refl)
                      None _ eq_refl eq_refl)).
Defined.

(** ** Who assigns [id] and [created_at] *)

Section Assignment.

Lemma max_rowid_bound (rows : list Row) (r : Row) :
  In r rows -> row_id r <= SQLiteService.max_rowid rows.
Proof.
  induction rows as [|a rows IH]; simpl; [contradiction|].
  intros [->|H]; [lia|]. specialize (IH H). lia.
Qed.

Lemma next_rowid_fresh (w : World) (r : Row) :
  In r (db_rows w) -> row_id r <> SQLiteService.next_rowid w.
Proof.
  intros H. apply max_rowid_bound in H. unfold SQLiteService.next_rowid. lia.
Qed.

Lemma find_appended (rows : list Row) (new : Row) (rid : Z) :
  row_id new = rid ->
  (forall r, In r rows -> row_id r <> rid) ->
  find (fun r => row_id r =? rid) (rows ++ [new]) = Some new.
Proof.
  intros <-. induction rows as [|a rows IH]; simpl; intros H.
  - now rewrite Z.eqb_refl.
  - destruct (Z.eqb_spec (row_id a) (row_id new)) as [E|_].
    + exfalso. now apply (H a (or_introl eq_refl)).
    + apply IH. intros r Hr. apply H. now right.
Qed.

Lemma createRecord_ok (d : Draft) (w : World) :
  db_fails w = false ->
  SQLiteService.createRecord d w = (Ok (created d w), inserted d w).
Proof.
  intros F. unfold_server. rewrite F. cbn [db_fails set_db]. rewrite F.
  change (db_rows (set_db ?r ?q ?v)) with r.
  erewrite find_appended; [reflexivity | reflexivity |].
  intros r Hr. now apply next_rowid_fresh.
Qed.

Lemma saveRecord_durable (d : Draft) (w : World) :
  transport w = Up -> db_fails w = false ->
  StorageService.saveRecord (StorageService.mk true) d w = (created d w, inserted d w).
Proof.
  intros T F. unfold StorageService.saveRecord, StorageService.trySaveRecord, fetch.
  simpl. rewrite T. unfold Route.POST, try_or, bind.
  rewrite (createRecord_ok d w F). reflexivity.
Qed.

End Assignment.

Section AssignmentClaims.

Lemma POST_cases (d : Draft) (w : World) :
  Route.POST d w =
  if db_fails w
  then (mkResponse 500 (BodyError "Failed to create record"), w)
  else (mkResponse 201 (BodyRecord (created d w)), inserted d w).
Proof.
  unfold Route.POST, try_or, bind. destruct (db_fails w) eqn:F.
  - unfold_server. now rewrite F.
  - now rewrite (createRecord_ok d w F).
Qed.

Lemma saveRecord_id (svc : StorageService.t) (d : Draft) (w : World) :
  id (fst (StorageService.saveRecord svc d w)) = Some (ms (clock w))
  \/ id (fst (StorageService.saveRecord svc d w)) = Some (SQLiteService.next_rowid w).
Proof.
  unfold StorageService.saveRecord. destruct (StorageService.useSQLite svc);
    [|left; reflexivity].
  unfold StorageService.trySaveRecord.
  pose proof (fetch_same_local (ReqPOST d) w) as S.
  unfold fetch in *. simpl Route.handle in *. rewrite POST_cases in *.
  destruct (transport w); destruct (db_fails w); simpl in *;
    first [ right; reflexivity
          | left; destruct S as (_ & C & _); simpl in C; congruence ].
Qed.

(** C9, as the code has it.  On the ephemeral backend the identifier is the
    clock's integer at the creation, and [created_at] is the draft's own
    when the draft has a non-empty one, the clock's text otherwise.  On the
    durable backend, reached and working, the record returned has the next
    row identifier, which no row has, and the database's timestamp, whatever
    [created_at] the draft carries.  In every case the identifier is one of
    these two: the draft has none to give. *)
Theorem create_assigns_id_created_at_prefers_draft :
  (forall d w,
      id (fst (saveLocalRecord d w)) = Some (ms (clock w))
      /\ created_at (fst (saveLocalRecord d w))
         = Some (str_or (d_created_at d) (iso (clock w)))
      /\ (forall c, d_created_at d = Some c -> Str.truthy c = true ->
            created_at (fst (saveLocalRecord d w)) = Some c)
      /\ (d_created_at d = None \/ d_created_at d = Some ""%js ->
            created_at (fst (saveLocalRecord d w)) = Some (iso (clock w))))
  /\ (forall d w, transport w = Up -> db_fails w = false ->
      StorageService.saveRecord (StorageService.mk true) d w = (created d w, inserted d w)
      /\ id (created d w) = Some (SQLiteService.next_rowid w)
      /\ created_at (created d w) = Some (sql (clock w))
      /\ (forall r, In r (db_rows w) -> row_id r <> SQLiteService.next_rowid w))
  /\ (forall svc d w,
      id (fst (StorageService.saveRecord svc d w)) = Some (ms (clock w))
      \/ id (fst (StorageService.saveRecord svc d w)) = Some (SQLiteService.next_rowid w)).
Proof.
  split; [|split].
  - intros d w. split; [reflexivity|]. split; [reflexivity|]. split.
    + intros c E T. simpl. unfold str_or. now rewrite E, T.
    + intros [E|E]; simpl; unfold str_or; now rewrite E.
  - intros d w T F. split; [now apply saveRecord_durable|].
    split; [reflexivity|]. split; [reflexivity|].
    intros r Hr. now apply next_rowid_fresh.
  - apply saveRecord_id.
Qed.

Lemma create_assigns_id_created_at_prefers_draft_witness :
  transport (browser None) = Up /\ db_fails (browser None) = false
  /\ StorageService.saveRecord (StorageService.mk true) dated_draft (browser None)
     = (created dated_draft (browser None), inserted dated_draft (browser None)).
Proof.
  split; [reflexivity|]. split; [reflexivity|].
  exact (proj1 (proj1 (proj2 create_assigns_id_created_at_prefers_draft)
                      dated_draft (browser None) eq_refl eq_refl)).
Defined.

(** C9 fails as stated: on the ephemeral backend the record returned for a
    draft dated 1999 carries that date, not the clock's text. *)
Lemma ephemeral_created_at_taken_from_draft :
  created_at (fst (StorageService.saveRecord (StorageService.mk false) dated_draft
                     (browser None)))
  = Some "1999-12-31T00:00:00.000Z"%js
  /\ created_at (fst (StorageService.saveRecord (StorageService.mk false) dated_draft
                        (browser None)))
     <> Some (iso (clock (browser None))).
Proof. split; [reflexivity | discriminate]. Qed.

End AssignmentClaims.

(** ** A deletion that the durable backend answers with 404 *)

Section NotFound.

Lemma filter_negb_all {A : Type} (f : A -> bool) (l : list A) :
  filter f l = [] -> filter (fun x => negb (f x)) l = l.
Proof.
  induction l as [|a l IH]; simpl; [reflexivity|].
  destruct (f a); [discriminate|]. intros H. simpl. f_equal. auto.
Qed.

Lemma set_db_same (w : World) : set_db (db_rows w) (db_seq w) w = w.
Proof. now destruct w. Qed.

(** The handler answers 404 exactly when no row was deleted, and then the
    table is as it was. *)
Lemma fetch_delete_404 (q : string) (w w1 : World) (resp : Response) :
  fetch (ReqDELETE q) w = (Some resp, w1) -> status resp = 404 -> w1 = w.
Proof.
  unfold fetch.
  destruct (transport w);
    [| discriminate | destruct (Route.handle (ReqDELETE q) w); discriminate].
  unfold_server. destruct (negb (Str.truthy q)); cbv beta.
  - intros [= <- <-]. discriminate.
  - destruct (db_fails w).
    + intros [= <- <-]. discriminate.
    + cbv zeta beta iota.
      match goal with |- context [0 <? ?c] => destruct (0 <? c) eqn:C end; simpl.
      * intros [= <- <-]. discriminate.
      * intros [= <- <-] _. apply Z.ltb_ge in C.
        rewrite filter_negb_all; [apply set_db_same|].
        match goal with |- ?l = [] => destruct l; [reflexivity | simpl in C; lia] end.
Qed.

(** C1, as the code has it.  With the durable backend selected, a deletion
    that the durable backend answers with 404 raises nothing and leaves the
    table as it was, but the store takes the answer for a failure like any
    other: it runs the deletion on the ephemeral backend, whose list then
    holds the records whose identifier differs, as text, from the given
    one.  The ephemeral list is unchanged when no stored record has that
    identifier. *)
Theorem delete_not_found_falls_back :
  forall this i w resp w1,
    StorageService.useSQLite this = true ->
    fetch (ReqDELETE (id_toString i)) w = (Some resp, w1) ->
    status resp = 404 ->
    w1 = w
    /\ StorageService.deleteRecord this i w = deleteLocalRecord (id_toString i) w
    /\ getLocalRecords (StorageService.deleteRecord this i w)
       = filter (fun r => id_differs r (id_toString i)) (getLocalRecords w)
    /\ ((forall s, In s (stored w) -> stored_has_id (id_toString i) s = false) ->
        getLocalRecords (StorageService.deleteRecord this i w) = getLocalRecords w).
Proof.
  intros this i w resp w1 U E S.
  pose proof (fetch_delete_404 _ _ _ _ E S) as ->.
  assert (D : StorageService.deleteRecord this i w = deleteLocalRecord (id_toString i) w).
  { unfold StorageService.deleteRecord, StorageService.tryDeleteRecord.
    rewrite U, E. unfold ok. rewrite S. reflexivity. }
  split; [reflexivity|]. split; [exact D|]. rewrite D. split.
  - apply getLocalRecords_deleteLocalRecord.
  - intros H. rewrite getLocalRecords_deleteLocalRecord. now apply unknown_id_keeps_all.
Qed.

Lemma delete_not_found_falls_back_witness :
  StorageService.useSQLite (StorageService.mk true) = true
  /\ fetch (ReqDELETE (id_toString (IdNumber 5))) (browser (Some [sample_stored (Some 7)]))
     = (Some (mkResponse 404 (BodyError "Record not found")),
        browser (Some [sample_stored (Some 7)]))
  /\ StorageService.deleteRecord (StorageService.mk true) (IdNumber 5)
       (browser (Some [sample_stored (Some 7)]))
     = deleteLocalRecord (id_toString (IdNumber 5)) (browser (Some [sample_stored (Some 7)])).
Proof.
  split; [reflexivity|]. split; [reflexivity|].
  exact (proj1 (proj2 (delete_not_found_falls_back (StorageService.mk true) (IdNumber 5)
                         (browser (Some [sample_stored (Some 7)])) _ _
                         eq_refl eq_refl eq_refl))).
Defined.

(** C1 fails as stated: the table is empty, so the deletion of record 5 is
    answered with 404, and the ephemeral backend, which held a record 5,
    holds none afterwards. *)
Lemma delete_not_found_changes_ephemeral :
  fst (fetch (ReqDELETE (id_toString (IdNumber 5))) (browser (Some [sample_stored (Some 5)])))
  = Some (mkResponse 404 (BodyError "Record not found"))
  /\ stored (browser (Some [sample_stored (Some 5)])) = [sample_stored (Some 5)]
  /\ stored (StorageService.deleteRecord (StorageService.mk true) (IdNumber 5)
               (browser (Some [sample_stored (Some 5)]))) = []
  /\ stored (StorageService.deleteRecord (StorageService.mk true) (IdNumber 5)
               (browser (Some [sample_stored (Some 5)])))
     <> stored (browser (Some [sample_stored (Some 5)])).
Proof. repeat split; try reflexivity. discriminate. Qed.

End NotFound.

(** ** The records view *)

Section RecordsView.

Local Open Scope js_scope.

Variable toLowerCase : string -> string.

Lemma prefix_app (p s : string) :
  String.prefix p s = true <-> exists post, s = p ++ post.
Proof.
  revert p. induction s as [|d s IH]; intros [|c p]; simpl.
  - split; [now exists "" | reflexivity].
  - split; [discriminate | intros [post [=]]].
  - split; [eauto | reflexivity].
  - destruct (N.eqb_spec c d) as [->|N]; simpl.
    + rewrite IH. split; intros [post E]; exists post; [now rewrite E | now injection E].
    + split; [discriminate | intros [post [= E _]]; congruence].
Qed.

(** [includes] finds [sub] somewhere in [s]. *)
Lemma includes_app (s sub : string) :
  Str.includes s sub = true <-> exists pre post, s = pre ++ sub ++ post.
Proof.
  induction s as [|c s IH].
  - simpl. rewrite orb_false_r. split.
    + intros H. destruct sub; [|discriminate]. now exists "", "".
    + intros (pre & post & E). destruct pre; [|discriminate].
      destruct sub; [reflexivity | discriminate].
  - cbn [Str.includes]. rewrite orb_true_iff, IH, prefix_app. split.
    + intros [[post E]|(pre & post & E)].
      * exists "", post. exact E.
      * exists (String c pre), post. simpl. now rewrite E.
    + intros (pre & post & E). destruct pre as [|d pre]; simpl in E.
      * left. now exists post.
      * right. injection E as _ E. now exists pre, post.
Qed.

(** The view keeps a record exactly when each of the five tests passes; a
    test whose field is in its initial state passes for every record; the
    name test passes when some name, in lower case, contains the search text
    in lower case. *)
Lemma matchesView_spec (f : ViewFilter) (r : Rec) :
  (In r (filteredRecords toLowerCase f [r]) <->
     matchesDate f r = true /\ matchesType f r = true /\ matchesMonth f r = true
     /\ matchesYear f r = true /\ matchesName toLowerCase f r = true)
  /\ (filterDate f = None -> matchesDate f r = true)
  /\ (filterType f = "all" -> matchesType f r = true)
  /\ (filterMonth f = "" -> matchesMonth f r = true)
  /\ (filterYear f = "" -> matchesYear f r = true)
  /\ (searchName f = "" -> matchesName toLowerCase f r = true)
  /\ (searchName f <> "" ->
      (matchesName toLowerCase f r = true <->
       exists nm pre post, In nm (names r) /\
         toLowerCase nm = pre ++ toLowerCase (searchName f) ++ post)).
Proof.
  split; [|split; [|split; [|split; [|split; [|split]]]]].
  - unfold filteredRecords. simpl. unfold matchesView.
    destruct (matchesDate f r), (matchesType f r), (matchesMonth f r),
      (matchesYear f r), (matchesName toLowerCase f r); simpl; intuition discriminate.
  - unfold matchesDate. now intros ->.
  - unfold matchesType. now intros ->.
  - unfold matchesMonth. now intros ->.
  - unfold matchesYear. now intros ->.
  - unfold matchesName. now intros ->.
  - unfold matchesName. intros Hne.
    destruct (searchName f) as [|c q] eqn:E; [congruence|].
    cbn [Str.truthy Str.is_empty negb orb]. rewrite existsb_exists. split.
    + intros (nm & Hin & Hinc).
      apply includes_app in Hinc as (pre & post & Hs). now exists nm, pre, post.
    + intros (nm & pre & post & Hin & Hs).
      exists nm. split; [exact Hin|]. apply includes_app. now exists pre, post.
Qed.

(** C5.  In the records view, the item "all" of the year list, and of the
    month list, leaves no record in the view, while the same item of the type
    list, and the initial state of each field, keep the record. *)
Theorem view_year_all_matches_nothing :
  filteredRecords toLowerCase initialFilter [january_record] = [january_record]
  /\ filteredRecords toLowerCase (setFilterType allItem initialFilter) [january_record]
     = [january_record]
  /\ filteredRecords toLowerCase (setFilterYear allItem initialFilter) [january_record] = []
  /\ filteredRecords toLowerCase (setFilterMonth allItem initialFilter) [january_record] = []
  /\ matchesYear (setFilterYear allItem initialFilter) january_record = false
  /\ statsMatches (mkStatsFilter "all" "all" "all") january_record = true.
Proof. repeat split. Qed.

End RecordsView.

(** ** Statistics *)

Section StatsMapFacts.

Lemma map_get_cons (e : string * Statistics) (m : StatsMap) (k : string) :
  map_get (e :: m) k = if String.eqb (fst e) k then Some (snd e) else map_get m k.
Proof. unfold map_get. simpl. now destruct (String.eqb (fst e) k). Qed.

Lemma map_get_set (m : StatsMap) (k k' : string) (v : Statistics) :
  map_get (map_set m k v) k' = if String.eqb k' k then Some v else map_get m k'.
Proof.
  induction m as [|e m IH]; simpl.
  - rewrite map_get_cons. simpl. rewrite (StringFacts.eqb_sym k k').
    now destruct (String.eqb k' k).
  - destruct (StringFacts.eqb_spec (fst e) k) as [E|N]; rewrite !map_get_cons; simpl.
    + rewrite E, (StringFacts.eqb_sym k k'). now destruct (String.eqb k' k).
    + rewrite IH. destruct (StringFacts.eqb_spec (fst e) k') as [E'|N'];
        destruct (StringFacts.eqb_spec k' k); congruence.
Qed.

Lemma map_has_get (m : StatsMap) (k : string) :
  map_has m k = match map_get m k with Some _ => true | None => false end.
Proof.
  induction m as [|e m IH]; [reflexivity|].
  rewrite map_get_cons. unfold map_has in *. simpl.
  now destruct (String.eqb (fst e) k).
Qed.

Lemma map_has_In (m : StatsMap) (k : string) :
  map_has m k = true <-> In k (map fst m).
Proof.
  unfold map_has. rewrite existsb_exists, in_map_iff. split.
  - intros (e & He & E). apply StringFacts.eqb_eq in E. eauto.
  - intros (e & E & He). exists e. split; [exact He|]. now apply StringFacts.eqb_eq.
Qed.

Lemma keys_map_set (m : StatsMap) (k : string) (v : Statistics) :
  map fst (map_set m k v) = if map_has m k then map fst m else map fst m ++ [k].
Proof.
  induction m as [|e m IH]; [reflexivity|].
  unfold map_has in *. simpl.
  destruct (StringFacts.eqb_spec (fst e) k) as [E|N]; simpl; [now rewrite E|].
  rewrite IH. now destruct (existsb _ m).
Qed.

Lemma keyed_map_set (m : StatsMap) (k : string) (v : Statistics) :
  keyed m -> name v = k -> keyed (map_set m k v).
Proof.
  unfold keyed. intros H Hv. induction m as [|e m IH]; simpl.
  - now constructor.
  - apply Forall_cons_iff in H as [He Hm].
    destruct (String.eqb (fst e) k); constructor; auto.
Qed.

Lemma map_get_In (m : StatsMap) (k : string) (v : Statistics) :
  NoDup (map fst m) -> In (k, v) m -> map_get m k = Some v.
Proof.
  induction m as [|e m IH]; simpl; [contradiction|].
  intros ND H. inversion ND as [|x l Hx ND']; subst. rewrite map_get_cons.
  destruct H as [->|H]; simpl.
  - now rewrite StringFacts.eqb_refl.
  - destruct (StringFacts.eqb_spec (fst e) k) as [E|_]; [|now apply IH].
    exfalso. apply Hx. rewrite E. now apply (in_map fst _ (k, v)).
Qed.

Lemma increment_name (r : Rec) (s : Statistics) : name (increment r s) = name s.
Proof. unfold increment. now destruct (type r). Qed.

End StatsMapFacts.

Section Visits.

Lemma visit_get (r : Rec) (m : StatsMap) (nm k : string) :
  map_get (visit r m nm) k =
  if String.eqb k nm then Some (increment r (val m nm)) else map_get m k.
Proof.
  unfold visit, val. rewrite map_has_get.
  destruct (map_get m nm) as [s|] eqn:G; cbn [negb].
  - rewrite G. apply map_get_set.
  - rewrite map_get_set, StringFacts.eqb_refl, !map_get_set.
    now destruct (String.eqb k nm).
Qed.

Lemma visit_val (r : Rec) (m : StatsMap) (nm k : string) :
  val (visit r m nm) k =
  if String.eqb k nm then increment r (val m nm) else val m k.
Proof.
  unfold val at 1. rewrite visit_get. now destruct (String.eqb k nm).
Qed.

Lemma visit_has (r : Rec) (m : StatsMap) (nm k : string) :
  map_has (visit r m nm) k = map_has m k || String.eqb k nm.
Proof.
  rewrite !map_has_get, visit_get.
  destruct (String.eqb k nm); [now rewrite orb_true_r | now rewrite orb_false_r].
Qed.

Lemma visit_keys (r : Rec) (m : StatsMap) (nm : string) :
  map fst (visit r m nm) = if map_has m nm then map fst m else map fst m ++ [nm].
Proof.
  unfold visit. destruct (map_has m nm) eqn:H; cbn [negb].
  - pose proof H as G. rewrite map_has_get in G. revert G.
    destruct (map_get m nm); [intros _|discriminate].
    now rewrite keys_map_set, H.
  - rewrite map_get_set, StringFacts.eqb_refl, keys_map_set.
    rewrite (map_has_get (map_set _ _ _)), map_get_set, StringFacts.eqb_refl.
    now rewrite keys_map_set, H.
Qed.

Lemma keyed_get (m : StatsMap) (k : string) (s : Statistics) :
  keyed m -> map_get m k = Some s -> name s = k.
Proof.
  unfold keyed. induction m as [|e m IH]; [discriminate|].
  intros H. apply Forall_cons_iff in H as [He Hm]. rewrite map_get_cons.
  destruct (StringFacts.eqb_spec (fst e) k) as [E|_]; [|now apply IH].
  intros [= <-]. congruence.
Qed.

Lemma keyed_val (m : StatsMap) (k : string) : keyed m -> name (val m k) = k.
Proof.
  intros H. unfold val. destruct (map_get m k) eqn:G; [|reflexivity].
  now apply (keyed_get m).
Qed.

Lemma visit_keyed (r : Rec) (m : StatsMap) (nm : string) :
  keyed m -> keyed (visit r m nm).
Proof.
  intros H. unfold visit.
  assert (K : keyed (if negb (map_has m nm)
                     then map_set m nm (mkStatistics nm 0 0 0%Qc 0%Qc) else m)).
  { destruct (negb (map_has m nm)); [now apply keyed_map_set | exact H]. }
  destruct (map_get _ nm) as [s|] eqn:G; [|exact K].
  apply keyed_map_set; [exact K|].
  rewrite increment_name. now apply (keyed_get _ _ _ K G).
Qed.

Lemma visit_nodup (r : Rec) (m : StatsMap) (nm : string) :
  NoDup (map fst m) -> NoDup (map fst (visit r m nm)).
Proof.
  intros H. rewrite visit_keys. destruct (map_has m nm) eqn:E; [exact H|].
  apply (Permutation_NoDup (Permutation_cons_append (map fst m) nm)).
  constructor; [|exact H]. intros Hin. apply map_has_In in Hin. congruence.
Qed.

Lemma names_fold (r : Rec) (ns : list string) (m : StatsMap) (k : string) :
  val (fold_left (visit r) ns m) k
  = Nat.iter (count_occ string_dec ns k) (increment r) (val m k)
  /\ map_has (fold_left (visit r) ns m) k = map_has m k || existsb (String.eqb k) ns.
Proof.
  revert m. induction ns as [|nm ns IH]; intros m; simpl.
  - now rewrite orb_false_r.
  - destruct (IH (visit r m nm)) as [V H]. rewrite V, H, visit_val, visit_has.
    split; [|now rewrite orb_assoc].
    destruct (string_dec nm k) as [->|N].
    + rewrite StringFacts.eqb_refl. now rewrite Nat.iter_succ_r.
    + apply not_eq_sym in N. apply StringFacts.eqb_neq in N. now rewrite N.
Qed.

Lemma names_fold_inv (r : Rec) (ns : list string) (m : StatsMap) :
  keyed m /\ NoDup (map fst m) ->
  keyed (fold_left (visit r) ns m) /\ NoDup (map fst (fold_left (visit r) ns m)).
Proof.
  revert m. induction ns as [|nm ns IH]; intros m [K N]; simpl; [now split|].
  apply IH. split; [now apply visit_keyed | now apply visit_nodup].
Qed.

Lemma accumulate_val (rs : list Rec) (m : StatsMap) (k : string) :
  val (accumulate rs m) k = per_name k rs (val m k)
  /\ map_has (accumulate rs m) k
     = map_has m k || existsb (fun r => existsb (String.eqb k) (names r)) rs.
Proof.
  unfold accumulate, per_name. revert m.
  induction rs as [|r rs IH]; intros m; simpl.
  - now rewrite orb_false_r.
  - destruct (IH (fold_left (visit r) (names r) m)) as [V H].
    destruct (names_fold r (names r) m k) as [V1 H1].
    rewrite V, H, V1, H1. split; [reflexivity | now rewrite orb_assoc].
Qed.

Lemma accumulate_inv (rs : list Rec) (m : StatsMap) :
  keyed m /\ NoDup (map fst m) ->
  keyed (accumulate rs m) /\ NoDup (map fst (accumulate rs m)).
Proof.
  unfold accumulate. revert m. induction rs as [|r rs IH]; intros m H; simpl;
    [exact H|].
  apply IH. now apply names_fold_inv.
Qed.

End Visits.

Section Totals.

Lemma dayValue_equivalent (r : Rec) : dayValue r = day_equivalent (duration r).
Proof. unfold dayValue. now destruct (duration r). Qed.

Lemma day_sum_app (l1 l2 : list Rec) :
  day_sum (l1 ++ l2) = (day_sum l1 + day_sum l2)%Qc.
Proof.
  induction l1 as [|r l1 IH]; simpl.
  - now rewrite Qcplus_0_l.
  - rewrite IH. apply Qcplus_assoc.
Qed.

Lemma day_sum_repeat_succ (r : Rec) (n : nat) :
  day_sum (repeat r (S n)) = (day_sum (repeat r n) + dayValue r)%Qc.
Proof. simpl. rewrite dayValue_equivalent. apply Qcplus_comm. Qed.

(** The mentions that one record adds for the name [k]. *)
Lemma mentions_cons (k : string) (ty : RecordType) (r : Rec) (rs : list Rec) :
  mentions k ty (r :: rs) =
  (if type_eqb (type r) ty then repeat r (count_occ string_dec (names r) k) else [])
  ++ mentions k ty rs.
Proof. reflexivity. Qed.

Lemma iter_increment_fields (r : Rec) (n : nat) (s : Statistics) :
  let s' := Nat.iter n (increment r) s in
  let ot := if type_eqb (type r) overtime then repeat r n else [] in
  let lv := if type_eqb (type r) leave then repeat r n else [] in
  overtimeCount s' = overtimeCount s + Z.of_nat (List.length ot)
  /\ leaveCount s' = leaveCount s + Z.of_nat (List.length lv)
  /\ overtimeDays s' = (overtimeDays s + day_sum ot)%Qc
  /\ leaveDays s' = (leaveDays s + day_sum lv)%Qc.
Proof.
  cbv zeta. induction n as [|n (IH1 & IH2 & IH3 & IH4)].
  - destruct (type r); simpl; rewrite !Qcplus_0_r; repeat split; lia.
  - rewrite Nat.iter_succ. unfold increment at 1 3 5 7.
    destruct (type r) eqn:T; cbn [type_eqb type_text String.eqb N.eqb Pos.eqb andb
                                   overtimeCount leaveCount overtimeDays leaveDays] in *;
      rewrite ?IH1, ?IH2, ?IH3, ?IH4; rewrite ?day_sum_repeat_succ, ?Qcplus_assoc;
      rewrite ?repeat_length in *; simpl List.length; simpl day_sum;
      repeat split; try reflexivity; lia.
Qed.

Lemma per_name_fields (k : string) (rs : list Rec) (s : Statistics) :
  overtimeCount (per_name k rs s) = overtimeCount s + reference_count k overtime rs
  /\ leaveCount (per_name k rs s) = leaveCount s + reference_count k leave rs
  /\ overtimeDays (per_name k rs s) = (overtimeDays s + reference_days k overtime rs)%Qc
  /\ leaveDays (per_name k rs s) = (leaveDays s + reference_days k leave rs)%Qc.
Proof.
  unfold per_name, reference_count, reference_days. fold day_sum. revert s.
  induction rs as [|r rs IH]; intros s.
  - simpl. rewrite !Qcplus_0_r. repeat split; lia.
  - cbn [fold_left].
    destruct (IH (Nat.iter (count_occ string_dec (names r) k) (increment r) s))
      as (I1 & I2 & I3 & I4).
    destruct (iter_increment_fields r (count_occ string_dec (names r) k) s)
      as (F1 & F2 & F3 & F4).
    rewrite I1, I2, I3, I4, F1, F2, F3, F4, !mentions_cons, !length_app, !day_sum_app.
    rewrite !Qcplus_assoc. repeat split; try reflexivity; lia.
Qed.

End Totals.

Section SortBy.

Context {A : Type} (cmp : A -> A -> comparison).

Lemma insert_by_perm (x : A) (l : list A) : Permutation (insert_by cmp x l) (x :: l).
Proof.
  induction l as [|y l IH]; simpl; [reflexivity|].
  destruct (cmp x y); try reflexivity.
  rewrite IH. apply perm_swap.
Qed.

Lemma sort_by_perm (l : list A) : Permutation (sort_by cmp l) l.
Proof.
  induction l as [|x l IH]; simpl; [reflexivity|].
  rewrite insert_by_perm. now constructor.
Qed.

(** The comparison is an order: of two elements one does not come after the
    other, and "does not come after" is transitive. *)
Hypothesis cmp_total : forall a b, cmp a b = Gt -> cmp b a <> Gt.
Hypothesis cmp_trans : forall a b c, cmp a b <> Gt -> cmp b c <> Gt -> cmp a c <> Gt.

Lemma insert_by_sorted (x : A) (l : list A) :
  StronglySorted (fun a b => cmp a b <> Gt) l ->
  StronglySorted (fun a b => cmp a b <> Gt) (insert_by cmp x l).
Proof.
  induction l as [|y l IH]; simpl; intros S.
  - repeat constructor.
  - inversion S as [|y' l' Sl Fy]; subst.
    assert (K : cmp x y <> Gt ->
                StronglySorted (fun a b => cmp a b <> Gt) (x :: y :: l)).
    { intros Hxy. constructor; [exact S|]. constructor; [exact Hxy|].
      eapply Forall_impl; [|exact Fy]. intros z Hz. now apply (cmp_trans x y z). }
    destruct (cmp x y) eqn:E; try (apply K; congruence).
    constructor; [now apply IH|].
    apply (Permutation_Forall (Permutation_sym (insert_by_perm x l))).
    constructor; [now apply cmp_total | exact Fy].
Qed.

Lemma sort_by_sorted (l : list A) :
  StronglySorted (fun a b => cmp a b <> Gt) (sort_by cmp l).
Proof.
  induction l as [|x l IH]; simpl; [constructor | now apply insert_by_sorted].
Qed.

End SortBy.

Section StatisticsClaim.

Variable localeCompare : string -> string -> comparison.

Lemma statistics_perm (f : StatsFilter) (records : list Rec) :
  Permutation (statistics localeCompare f records)
              (map snd (accumulate (filter (statsMatches f) records) [])).
Proof. apply sort_by_perm. Qed.

Lemma keyed_names (m : StatsMap) : keyed m -> map name (map snd m) = map fst m.
Proof.
  unfold keyed. induction 1 as [|e m He Hm IH]; simpl; [reflexivity|].
  now rewrite He, IH.
Qed.

Lemma sample_accumulate :
  map snd (accumulate (filter (statsMatches no_stats_filter)
                              [stats_record1; stats_record2]) [])
  = [mkStatistics "A" 1 1 1%Qc (Q2Qc (1 # 2)); mkStatistics "B" 0 1 0%Qc (Q2Qc (1 # 2))].
Proof.
  cbv [accumulate filter statsMatches no_stats_filter stats_record1 stats_record2
       statsFilterType statsFilterMonth statsFilterYear fold_left names visit].
  simpl. unfold increment. simpl.
  repeat f_equal; apply Qc_is_canon; reflexivity.
Qed.

(** C4.  For every filter and collection, the statistics are the reference
    aggregation of the records that pass the filter: there is one entry for
    each name that occurs in such a record and none for any other name; the
    entry's count for a type is the number of mentions of the name in records
    of that type and its day total the sum of their day equivalents (1 for a
    full day, 0.5 otherwise), both starting from zero; the entries are sorted
    by name.  For the two sample records this gives A with overtime 1 and
    1 day, leave 1 and 0.5 day, then B with overtime 0 and 0, leave 1 and
    0.5 day. *)
Theorem statistics_reference_aggregation :
  forall f records,
    let kept := filter (statsMatches f) records in
    let out := statistics localeCompare f records in
    ((forall a b, localeCompare a b = Gt -> localeCompare b a <> Gt) ->
     (forall a b c, localeCompare a b <> Gt -> localeCompare b c <> Gt ->
                    localeCompare a c <> Gt) ->
     StronglySorted (fun a b => localeCompare (name a) (name b) <> Gt) out)
    /\ NoDup (map name out)
    /\ (forall nm, In nm (map name out) <-> exists r, In r kept /\ In nm (names r))
    /\ (forall st, In st out ->
          overtimeCount st = reference_count (name st) overtime kept
          /\ leaveCount st = reference_count (name st) leave kept
          /\ overtimeDays st = reference_days (name st) overtime kept
          /\ leaveDays st = reference_days (name st) leave kept)
    /\ (localeCompare "A" "B" <> Gt ->
        statistics localeCompare no_stats_filter [stats_record1; stats_record2]
        = [mkStatistics "A" 1 1 1%Qc (Q2Qc (1 # 2));
           mkStatistics "B" 0 1 0%Qc (Q2Qc (1 # 2))]).
Proof.
  intros f records kept out.
  pose proof (statistics_perm f records) as P. fold kept out in P.
  destruct (accumulate_inv kept [] (conj (Forall_nil _) (NoDup_nil _))) as [K N].
  assert (Names : Permutation (map name out) (map fst (accumulate kept []))).
  { rewrite <- (keyed_names _ K). now apply Permutation_map. }
  split; [|split; [|split; [|split]]].
  - intros localeCompare_total localeCompare_trans. unfold out, statistics.
    apply (sort_by_sorted (fun a b => localeCompare (name a) (name b))).
    + intros a b. apply localeCompare_total.
    + intros a b c. apply localeCompare_trans.
  - apply (Permutation_NoDup (Permutation_sym Names) N).
  - intros nm. rewrite (Permutation_in' (eq_refl nm) Names), <- map_has_In.
    rewrite (proj2 (accumulate_val kept [] nm)). simpl.
    rewrite existsb_exists. split.
    + intros (r & Hr & Hn). exists r. split; [exact Hr|].
      apply existsb_exists in Hn as (x & Hx & E). apply StringFacts.eqb_eq in E. now subst.
    + intros (r & Hr & Hn). exists r. split; [exact Hr|].
      apply existsb_exists. exists nm. split; [exact Hn | apply StringFacts.eqb_refl].
  - intros st Hst. apply (Permutation_in _ P) in Hst.
    apply in_map_iff in Hst as ([k s] & E & He). simpl in E. subst s.
    pose proof (map_get_In _ _ _ N He) as G.
    assert (Hk : name st = k) by now apply (keyed_get _ _ _ K G).
    assert (V : st = per_name k kept (zero_stats k)).
    { pose proof (proj1 (accumulate_val kept [] k)) as V0.
      unfold val at 1 in V0. rewrite G in V0. exact V0. }
    rewrite Hk.
    destruct (per_name_fields k kept (zero_stats k)) as (F1 & F2 & F3 & F4).
    rewrite <- V in F1, F2, F3, F4. simpl in F1, F2, F3, F4.
    rewrite Qcplus_0_l in F3, F4. repeat split; assumption.
  - intros HAB. unfold statistics. rewrite sample_accumulate. simpl.
    destruct (localeCompare "A" "B"); congruence.
Qed.

End StatisticsClaim.

Section CodeUnitOrder.

(** The comparison of strings character by character is an order of the kind
    that [statistics] asks of [localeCompare]. *)
Lemma string_compare_total (a b : string) :
  String.compare a b = Gt -> String.compare b a <> Gt.
Proof. rewrite (StringFacts.compare_antisym b a). now intros ->. Qed.

Lemma string_compare_trans (a b c : string) :
  String.compare a b <> Gt -> String.compare b c <> Gt -> String.compare a c <> Gt.
Proof.
  revert b c. induction a as [|x a IH]; intros [|y b] [|z c]; simpl; try congruence.
  destruct (N.compare_spec x y) as [->|L1|L1]; try congruence.
  - destruct (N.compare y z) eqn:E; try congruence. apply IH.
  - destruct (N.compare_spec y z) as [->|L2|L2]; try congruence; intros _ _.
    + destruct (N.compare_spec x z); [lia | discriminate | lia].
    + destruct (N.compare_spec x z); [lia | discriminate | lia].
Qed.

End CodeUnitOrder.

Lemma statistics_reference_aggregation_witness :
  (forall a b, String.compare a b = Gt -> String.compare b a <> Gt)
  /\ (forall a b c, String.compare a b <> Gt -> String.compare b c <> Gt ->
                    String.compare a c <> Gt)
  /\ String.compare "A" "B" <> Gt
  /\ StronglySorted (fun a b => String.compare (name a) (name b) <> Gt)
       (statistics String.compare no_stats_filter [stats_record1; stats_record2])
  /\ statistics String.compare no_stats_filter [stats_record1; stats_record2]
     = [mkStatistics "A" 1 1 1%Qc (Q2Qc (1 # 2));
        mkStatistics "B" 0 1 0%Qc (Q2Qc (1 # 2))].
Proof.
  split; [exact string_compare_total|]. split; [exact string_compare_trans|].
  split; [discriminate|]. split.
  - exact (proj1 (statistics_reference_aggregation String.compare no_stats_filter
                    [stats_record1; stats_record2])
                 string_compare_total string_compare_trans).
  - apply (proj2 (proj2 (proj2 (proj2
             (statistics_reference_aggregation String.compare no_stats_filter []))))).
    discriminate.
Defined.

(** * Further properties of the code *)

(** ** Name parsing, continued *)

Section NameRoundTrip.

(** X1.  Names that are non-empty and free of whitespace, written with single
    spaces between them, are read back as they are. *)
Theorem parseNames_join_names :
  forall ns,
    Forall (fun nm => Str.is_empty nm = false /\ Str.no_ws nm = true) ns ->
    parseNames (join_names ns) = ns.
Proof.
  intros ns H. rewrite parseNames_words. unfold words.
  induction H as [|n rest [Hn1 Hn2] Hrest IH]; [reflexivity|].
  destruct rest as [|m rest'].
  - simpl. now apply (words_go_single n ""%js).
  - change (join_names (n :: m :: rest'))
      with (n ++ String 32 (join_names (m :: rest')))%js.
    rewrite words_go_app by reflexivity. rewrite IH.
    now rewrite (words_go_single n ""%js).
Qed.

Lemma parseNames_join_names_witness :
  Forall (fun nm => Str.is_empty nm = false /\ Str.no_ws nm = true)
         ["Ann"; "Bo"]%js
  /\ parseNames (join_names ["Ann"; "Bo"]%js) = ["Ann"; "Bo"]%js.
Proof.
  assert (H : Forall (fun nm => Str.is_empty nm = false /\ Str.no_ws nm = true)
                     ["Ann"; "Bo"]%js) by (repeat constructor).
  split; [exact H | exact (parseNames_join_names _ H)].
Defined.

End NameRoundTrip.

(** ** The ephemeral backend, continued *)

Section EphemeralMore.

Lemma str_or_idem (a : option string) (b : string) :
  str_or (Some (str_or a b)) b = str_or a b.
Proof.
  unfold str_or. destruct a as [c|].
  - destruct (Str.truthy c) eqn:E; [now rewrite E|]. now destruct (Str.truthy b).
  - now destruct (Str.truthy b).
Qed.

Lemma normalise_new (d : Draft) (w : World) :
  normalise (clock w) (to_stored (fst (saveLocalRecord d w)))
  = fst (saveLocalRecord d w).
Proof.
  unfold normalise, to_stored, saveLocalRecord. simpl. f_equal. f_equal.
  apply str_or_idem.
Qed.

Lemma clock_saveLocalRecord (d : Draft) (w : World) :
  clock (snd (saveLocalRecord d w)) = clock w.
Proof. unfold saveLocalRecord. simpl. now destruct (window_defined w). Qed.

Lemma getLocalRecords_saveLocalRecord (d : Draft) (w : World) :
  window_defined w = true ->
  getLocalRecords (snd (saveLocalRecord d w))
  = fst (saveLocalRecord d w) :: getLocalRecords w.
Proof.
  intros W.
  rewrite <- (set_clock_same (snd (saveLocalRecord d w))), clock_saveLocalRecord.
  rewrite getLocalRecords_after_save by assumption. cbn [map].
  rewrite normalise_new. f_equal. apply map_fixed. intros r Hr.
  apply in_getLocalRecords in Hr as (s & _ & ->). apply normalise_idem.
Qed.

(** X2.  In a browser, a list that follows a creation on the ephemeral
    backend is the record the creation returned followed by the list as it
    was: right away, and at any later instant when the clock's text at the
    creation was not empty. *)
Theorem create_prepends_to_list :
  forall d w,
    window_defined w = true ->
    getLocalRecords (snd (StorageService.saveRecord (StorageService.mk false) d w))
    = fst (StorageService.saveRecord (StorageService.mk false) d w) :: getLocalRecords w
    /\ (Str.truthy (iso (clock w)) = true ->
        forall t,
          getLocalRecords
            (set_clock t (snd (StorageService.saveRecord (StorageService.mk false) d w)))
          = fst (StorageService.saveRecord (StorageService.mk false) d w)
            :: getLocalRecords w).
Proof.
  intros d w W. split; [now apply getLocalRecords_saveLocalRecord|].
  intros T t. change (StorageService.saveRecord (StorageService.mk false) d w)
    with (saveLocalRecord d w).
  rewrite getLocalRecords_after_save by assumption. cbn [map]. f_equal.
  - unfold normalise, to_stored, saveLocalRecord. simpl. f_equal. f_equal.
    unfold str_or. destruct (d_created_at d) as [c|].
    + destruct (Str.truthy c) eqn:E; [now rewrite E | now rewrite T].
    + now rewrite T.
  - apply map_fixed. intros r Hr.
    apply in_getLocalRecords in Hr as (s & _ & ->). now apply normalise_later.
Qed.

Lemma create_prepends_to_list_witness :
  window_defined (browser (Some [sample_stored (Some 5)])) = true
  /\ getLocalRecords
       (snd (StorageService.saveRecord (StorageService.mk false) sample_draft
               (browser (Some [sample_stored (Some 5)]))))
     = fst (StorageService.saveRecord (StorageService.mk false) sample_draft
              (browser (Some [sample_stored (Some 5)])))
       :: getLocalRecords (browser (Some [sample_stored (Some 5)])).
Proof.
  split; [reflexivity|].
  exact (proj1 (create_prepends_to_list sample_draft
                  (browser (Some [sample_stored (Some 5)])) eq_refl)).
Defined.

(** X3.  In a browser, creating a record on the ephemeral backend and then
    deleting the identifier it was given brings the list back to what it
    was, provided no stored record had that identifier. *)
Theorem create_then_delete_restores :
  forall d w,
    window_defined w = true ->
    (forall s, In s (stored w) -> s_id s <> Some (ms (clock w))) ->
    id (fst (StorageService.saveRecord (StorageService.mk false) d w))
    = Some (ms (clock w))
    /\ getLocalRecords
         (StorageService.deleteRecord (StorageService.mk false) (IdNumber (ms (clock w)))
            (snd (StorageService.saveRecord (StorageService.mk false) d w)))
       = getLocalRecords w.
Proof.
  intros d w W Hfresh. split; [reflexivity|].
  change (StorageService.saveRecord (StorageService.mk false) d w)
    with (saveLocalRecord d w).
  unfold StorageService.deleteRecord. simpl StorageService.useSQLite. cbv iota.
  rewrite getLocalRecords_deleteLocalRecord, getLocalRecords_saveLocalRecord by assumption.
  cbn [filter].
  assert (E : id_differs (fst (saveLocalRecord d w))
                (id_toString (IdNumber (ms (clock w)))) = false).
  { unfold id_differs. simpl. now rewrite StringFacts.eqb_refl. }
  rewrite E. apply filter_all. intros r Hr.
  apply in_getLocalRecords in Hr as (s & Hs & ->).
  apply id_differs_number. simpl. now apply Hfresh.
Qed.

Lemma create_then_delete_restores_witness :
  window_defined (browser (Some [sample_stored (Some 5)])) = true
  /\ (forall s, In s (stored (browser (Some [sample_stored (Some 5)]))) ->
                s_id s <> Some (ms (clock (browser (Some [sample_stored (Some 5)])))))
  /\ getLocalRecords
       (StorageService.deleteRecord (StorageService.mk false)
          (IdNumber (ms (clock (browser (Some [sample_stored (Some 5)])))))
          (snd (StorageService.saveRecord (StorageService.mk false) sample_draft
                  (browser (Some [sample_stored (Some 5)])))))
     = getLocalRecords (browser (Some [sample_stored (Some 5)])).
Proof.
  assert (H : forall s, In s (stored (browser (Some [sample_stored (Some 5)]))) ->
                s_id s <> Some (ms (clock (browser (Some [sample_stored (Some 5)]))))).
  { intros s [<-|[]]. discriminate. }
  split; [reflexivity|]. split; [exact H|].
  exact (proj2 (create_then_delete_restores sample_draft
                  (browser (Some [sample_stored (Some 5)])) eq_refl H)).
Defined.

End EphemeralMore.

Section EphemeralIds.

Lemma present_ids_read_back (t : Instant) (l : list StoredRecord) :
  present_ids (map (fun s => to_stored (normalise t s)) l) = present_ids l.
Proof.
  induction l as [|s l IH]; [reflexivity|].
  simpl. now rewrite IH.
Qed.

Lemma present_ids_filter (p : StoredRecord -> bool) (l : list StoredRecord) :
  (forall i, In i (present_ids (filter p l)) -> In i (present_ids l))
  /\ (NoDup (present_ids l) -> NoDup (present_ids (filter p l))).
Proof.
  induction l as [|s l [IH1 IH2]]; [split; auto|].
  simpl. destruct (p s); simpl.
  - split.
    + intros i Hi. apply in_app_or in Hi as [Hi|Hi]; apply in_or_app; auto.
    + destruct (s_id s) as [j|]; simpl; [|exact IH2].
      intros N. apply NoDup_cons_iff in N as [Nj N]. constructor; auto.
  - split.
    + intros i Hi. apply in_or_app. auto.
    + destruct (s_id s) as [j|]; simpl; [|exact IH2].
      intros N. apply NoDup_cons_iff in N as [_ N]. auto.
Qed.

Lemma stored_saveLocalRecord (d : Draft) (w : World) :
  window_defined w = true ->
  stored (snd (saveLocalRecord d w))
  = to_stored (fst (saveLocalRecord d w))
    :: map (fun s => to_stored (normalise (clock w) s)) (stored w).
Proof.
  intros W. unfold saveLocalRecord. simpl. rewrite W.
  rewrite getLocalRecords_stored, W. unfold stored at 1. simpl. now rewrite map_map.
Qed.

Lemma stored_deleteLocalRecord (i : string) (w : World) :
  window_defined w = true ->
  stored (deleteLocalRecord i w)
  = map (fun s => to_stored (normalise (clock w) s))
        (filter (fun s => negb (stored_has_id i s)) (stored w)).
Proof.
  intros W. unfold deleteLocalRecord.
  rewrite W, getLocalRecords_stored, W. unfold stored at 1. simpl.
  generalize (stored w). intros l. induction l as [|s l IH]; [reflexivity|].
  simpl. rewrite id_differs_stored.
  destruct (negb (stored_has_id i s)); simpl; now rewrite IH.
Qed.

(** X4.  In a browser, when the stored identifiers are distinct and all
    below the clock's reading, they are so again after a creation followed
    by a strictly later reading, and after any deletion: with a clock that
    advances between creations, identifiers never collide. *)
Theorem ids_stay_distinct_as_clock_advances :
  forall w,
    window_defined w = true ->
    NoDup (present_ids (stored w)) ->
    (forall i, In i (present_ids (stored w)) -> i < ms (clock w)) ->
    (forall d t, ms (clock w) < ms t ->
       NoDup (present_ids (stored (set_clock t (snd (saveLocalRecord d w)))))
       /\ (forall i, In i (present_ids (stored (set_clock t (snd (saveLocalRecord d w)))))
                     -> i < ms (clock (set_clock t (snd (saveLocalRecord d w))))))
    /\ (forall i,
       NoDup (present_ids (stored (deleteLocalRecord i w)))
       /\ (forall j, In j (present_ids (stored (deleteLocalRecord i w)))
                     -> j < ms (clock (deleteLocalRecord i w)))).
Proof.
  intros w W N B. split.
  - intros d t Ht.
    change (stored (set_clock t (snd (saveLocalRecord d w))))
      with (stored (snd (saveLocalRecord d w))).
    rewrite stored_saveLocalRecord by assumption.
    change (present_ids (?a :: ?l)) with
      (match s_id a with Some i => [i] | None => [] end ++ present_ids l).
    rewrite present_ids_read_back. simpl. split.
    + constructor; [|exact N]. intros Hin. apply B in Hin. lia.
    + intros i [<-|Hi]; [exact Ht|]. apply B in Hi. lia.
  - intros i. rewrite clock_deleteLocalRecord, stored_deleteLocalRecord by assumption.
    rewrite present_ids_read_back.
    destruct (present_ids_filter (fun s => negb (stored_has_id i s)) (stored w))
      as [P1 P2].
    split; [now apply P2|]. intros j Hj. apply B. now apply P1.
Qed.

Lemma ids_stay_distinct_as_clock_advances_witness :
  window_defined (browser (Some [sample_stored (Some 5)])) = true
  /\ NoDup (present_ids (stored (browser (Some [sample_stored (Some 5)]))))
  /\ ms (clock (browser (Some [sample_stored (Some 5)]))) < ms sample_later
  /\ NoDup (present_ids (stored (set_clock sample_later
              (snd (saveLocalRecord sample_draft
                      (browser (Some [sample_stored (Some 5)]))))))).
Proof.
  assert (N : NoDup (present_ids (stored (browser (Some [sample_stored (Some 5)]))))).
  { repeat constructor. intros []. }
  assert (B : forall i, In i (present_ids (stored (browser (Some [sample_stored (Some 5)]))))
                        -> i < ms (clock (browser (Some [sample_stored (Some 5)])))).
  { intros i [<-|[]]. reflexivity. }
  split; [reflexivity|]. split; [exact N|]. split; [reflexivity|].
  exact (proj1 (proj1 (ids_stay_distinct_as_clock_advances
                         (browser (Some [sample_stored (Some 5)])) eq_refl N B)
                      sample_draft sample_later eq_refl)).
Defined.

Lemma str_or_truthy (a : option string) (b : string) :
  Str.truthy b = true -> Str.truthy (str_or a b) = true.
Proof.
  intros H. unfold str_or. destruct a as [c|]; [|exact H].
  now destruct (Str.truthy c) eqn:E.
Qed.

(** X5.  Whatever the mode and whatever the durable backend does, every
    record that [getRecords] returns carries a non-empty [created_at], the
    clock's text being non-empty. *)
Theorem getRecords_created_at_present :
  forall svc w,
    Str.truthy (iso (clock w)) = true ->
    Forall (fun r => exists c, created_at r = Some c /\ Str.truthy c = true)
           (fst (StorageService.getRecords svc w)).
Proof.
  intros svc w T.
  assert (L : forall w1, same_local w w1 ->
              Forall (fun r => exists c, created_at r = Some c /\ Str.truthy c = true)
                     (getLocalRecords w1)).
  { intros w1 S. rewrite (same_local_getLocalRecords _ _ S), getLocalRecords_stored.
    destruct (window_defined w); [|constructor].
    apply Forall_forall. intros r Hr. apply in_map_iff in Hr as (s & <- & _).
    eexists. split; [reflexivity|]. now apply str_or_truthy. }
  unfold StorageService.getRecords. destruct (StorageService.useSQLite svc);
    [|apply L, same_local_refl].
  unfold StorageService.tryGetRecords.
  pose proof (fetch_same_local ReqGET w) as S.
  destruct (fetch ReqGET w) as [[resp|] w1]; simpl in S; [|now apply L].
  destruct (negb (ok resp)); [now apply L|].
  destruct (body resp); try now apply L.
  simpl. apply Forall_forall. intros r Hr. apply in_map_iff in Hr as (r0 & <- & _).
  eexists. split; [reflexivity|]. apply str_or_truthy.
  destruct S as (_ & C & _). now rewrite C.
Qed.

Lemma getRecords_created_at_present_witness :
  Str.truthy (iso (clock (browser (Some [mkStored (Some 5) ["Bob"%js] "2024-02-10" leave None None])))) = true
  /\ Forall (fun r => exists c, created_at r = Some c /\ Str.truthy c = true)
            (fst (StorageService.getRecords (StorageService.mk false)
                    (browser (Some [mkStored (Some 5) ["Bob"%js] "2024-02-10" leave None None])))).
Proof.
  split; [reflexivity|].
  exact (getRecords_created_at_present (StorageService.mk false)
           (browser (Some [mkStored (Some 5) ["Bob"%js] "2024-02-10" leave None None]))
           eq_refl).
Defined.

End EphemeralIds.

(** ** The durable backend, continued *)

Section DurableMore.

Lemma GET_cases (w : World) :
  Route.GET w =
  if db_fails w
  then (mkResponse 500 (BodyError "Failed to fetch records"), w)
  else (mkResponse 200
          (BodyRecords (map SQLiteService.row_record (newest_first (db_rows w)))), w).
Proof. unfold_server. now destruct (db_fails w). Qed.

Lemma DELETE_cases (q : string) (w : World) :
  Route.DELETE q w =
  if negb (Str.truthy q)
  then (mkResponse 400 (BodyError "Record ID is required"), w)
  else if db_fails w
  then (mkResponse 500 (BodyError "Failed to delete record"), w)
  else if existsb (row_hit q) (db_rows w)
  then (mkResponse 200 (BodyMessage "Record deleted successfully"),
        set_db (filter (fun r => negb (row_hit q r)) (db_rows w)) (db_seq w) w)
  else (mkResponse 404 (BodyError "Record not found"), w).
Proof.
  unfold_server. destruct (negb (Str.truthy q)); cbv beta; [reflexivity|].
  destruct (db_fails w); [reflexivity|]. cbv zeta beta iota.
  fold (row_hit q).
  assert (E : (0 <? Z.of_nat (List.length (filter (row_hit q) (db_rows w))))
              = existsb (row_hit q) (db_rows w)).
  { induction (db_rows w) as [|r l IH]; [reflexivity|].
    simpl. destruct (row_hit q r); simpl; [|exact IH].
    apply Z.ltb_lt. lia. }
  rewrite E. destruct (existsb (row_hit q) (db_rows w)) eqn:X; simpl; [reflexivity|].
  f_equal. rewrite filter_all; [apply set_db_same|].
  intros r Hr. apply negb_true_iff. change (row_hit q r = false).
  destruct (row_hit q r) eqn:H; [|reflexivity].
  assert (existsb (row_hit q) (db_rows w) = true)
    by (apply existsb_exists; eauto). congruence.
Qed.

Lemma getRecords_durable (w : World) :
  transport w = Up -> db_fails w = false ->
  StorageService.getRecords (StorageService.mk true) w
  = (map (stamp (clock w)) (map SQLiteService.row_record (newest_first (db_rows w))), w).
Proof.
  intros T F. unfold StorageService.getRecords, StorageService.tryGetRecords, fetch.
  simpl. rewrite T, GET_cases, F. reflexivity.
Qed.

Lemma filter_perm {A : Type} (p : A -> bool) (l l' : list A) :
  Permutation l l' -> Permutation (filter p l) (filter p l').
Proof.
  induction 1 as [|x l l' _ IH|x y l|l l' l'' _ IH1 _ IH2]; simpl.
  - constructor.
  - destruct (p x); [now constructor | exact IH].
  - destruct (p x), (p y); try reflexivity. apply perm_swap.
  - now transitivity (filter p l').
Qed.

(** X6.  With the durable backend reached and working, a creation through
    the store followed by a list shows exactly one record with the identifier
    the creation returned; it has the draft's fields, and it is the record
    returned when the database's timestamp is not empty. *)
Theorem durable_create_then_list :
  forall d w,
    transport w = Up -> db_fails w = false ->
    exists r',
      filter (has_id (SQLiteService.next_rowid w))
             (fst (StorageService.getRecords (StorageService.mk true)
                     (snd (StorageService.saveRecord (StorageService.mk true) d w))))
      = [r']
      /\ id (fst (StorageService.saveRecord (StorageService.mk true) d w))
         = Some (SQLiteService.next_rowid w)
      /\ names r' = d_names d /\ date r' = d_date d /\ type r' = d_type d
      /\ duration r' = d_duration d
      /\ (Str.truthy (sql (clock w)) = true ->
          r' = fst (StorageService.saveRecord (StorageService.mk true) d w)).
Proof.
  intros d w T F. rewrite (saveRecord_durable d w T F). cbn [fst snd].
  rewrite (getRecords_durable (inserted d w) T F). cbn [fst].
  set (new := mkRow (SQLiteService.next_rowid w) (d_names d) (d_date d) (d_type d)
                    (d_duration d) (sql (clock w))).
  exists (stamp (clock w) (SQLiteService.row_record new)).
  split; [|split; [reflexivity|]].
  - rewrite map_map.
    assert (E : forall l,
               filter (has_id (SQLiteService.next_rowid w))
                      (map (fun x => stamp (clock (inserted d w)) (SQLiteService.row_record x)) l)
               = map (fun x => stamp (clock w) (SQLiteService.row_record x))
                     (filter (fun r => row_id r =? SQLiteService.next_rowid w) l)).
    { induction l as [|r l IH]; [reflexivity|]. cbn [map filter]. rewrite IH.
      change (has_id (SQLiteService.next_rowid w)
                (stamp (clock (inserted d w)) (SQLiteService.row_record r)))
        with (row_id r =? SQLiteService.next_rowid w).
      now destruct (row_id r =? SQLiteService.next_rowid w). }
    rewrite E.
    assert (P : Permutation
                  (filter (fun r => row_id r =? SQLiteService.next_rowid w)
                          (newest_first (db_rows (inserted d w))))
                  [new]).
    { unfold newest_first.
      rewrite (filter_perm _ _ _ (sort_by_perm _ (db_rows (inserted d w)))).
      unfold inserted. simpl db_rows. rewrite filter_app. fold new.
      rewrite filter_none.
      - simpl. now rewrite Z.eqb_refl.
      - intros r Hr. apply Z.eqb_neq. now apply next_rowid_fresh. }
    apply Permutation_sym, Permutation_length_1_inv in P. now rewrite P.
  - repeat (split; [reflexivity|]).
    intros S. unfold stamp, created, str_or. simpl. now rewrite S.
Qed.

Lemma durable_create_then_list_witness :
  transport (browser None) = Up /\ db_fails (browser None) = false
  /\ exists r',
      filter (has_id (SQLiteService.next_rowid (browser None)))
             (fst (StorageService.getRecords (StorageService.mk true)
                     (snd (StorageService.saveRecord (StorageService.mk true) sample_draft
                             (browser None)))))
      = [r'].
Proof.
  split; [reflexivity|]. split; [reflexivity|].
  destruct (durable_create_then_list sample_draft (browser None) eq_refl eq_refl)
    as (r' & H & _).
  exists r'. exact H.
Defined.

End DurableMore.

(** ** Identifiers as text and back *)

Section IdText.

Lemma of_uint_acc_value (l : Decimal.uint) (acc : positive) :
  Zpos (Pos.of_uint_acc l acc) = uint_value l (Zpos acc).
Proof.
  revert acc.
  induction l; intros acc; cbn [Pos.of_uint_acc uint_value]; try reflexivity;
    rewrite IHl; f_equal; lia.
Qed.

Lemma of_uint_value (d : Decimal.uint) : Z.of_N (Pos.of_uint d) = uint_value d 0.
Proof.
  induction d; cbn [Pos.of_uint uint_value]; try reflexivity; try exact IHd;
    cbn [Z.of_N]; now rewrite of_uint_acc_value.
Qed.

Lemma parse_digits_uint (d : Decimal.uint) (a : Z) :
  parse_digits 10 (String.of_ascii (NilEmpty.string_of_uint d)) (Some a)
  = Some (uint_value d a).
Proof.
  revert a. induction d; intros a; simpl; try reflexivity; now rewrite IHd.
Qed.

Lemma parse_digits_uint_start (d : Decimal.uint) :
  d <> Decimal.Nil ->
  parse_digits 10 (String.of_ascii (NilEmpty.string_of_uint d)) None
  = Some (uint_value d 0).
Proof.
  destruct d; intros H; try congruence; simpl; now rewrite parse_digits_uint.
Qed.

Lemma digits_only_uint (d : Decimal.uint) :
  digits_only (String.of_ascii (NilEmpty.string_of_uint d)) = true.
Proof. induction d; simpl; auto. Qed.

Lemma is_digit_cases (c : char) :
  is_digit c = true -> In c [48; 49; 50; 51; 52; 53; 54; 55; 56; 57]%N.
Proof.
  unfold is_digit. intros H. apply andb_true_iff in H as [L U].
  apply N.leb_le in L, U. simpl.
  assert (c = 48 \/ c = 49 \/ c = 50 \/ c = 51 \/ c = 52 \/ c = 53 \/ c = 54
          \/ c = 55 \/ c = 56 \/ c = 57)%N by lia.
  intuition.
Qed.

Ltac split_digit H :=
  apply is_digit_cases in H; simpl in H;
  repeat (destruct H as [<-|H]); [..|contradiction].

(** On a text of digits, [parseInt] reads the decimal number. *)
Lemma parseInt_digits (s : string) :
  digits_only s = true -> parseInt s = parse_digits 10 s None.
Proof.
  intros H. destruct s as [|c r]; [reflexivity|].
  simpl in H. apply andb_true_iff in H as [Hc Hr].
  assert (K : forall x, match x with Some n => Some (if false then - n else n) | None => None end = x)
    by (intros [z|]; reflexivity).
  split_digit Hc; unfold parseInt; simpl Str.trimStart;
    cbv beta iota zeta; try apply K.
  destruct r as [|c2 r2]; [reflexivity|].
  simpl in Hr. apply andb_true_iff in Hr as [Hc2 _].
  split_digit Hc2; apply K.
Qed.

Lemma parseInt_minus_digits (s : string) :
  digits_only s = true ->
  parseInt (String 45 s) = option_map Z.opp (parse_digits 10 s None).
Proof.
  intros H. pose proof (parseInt_digits s H) as P. unfold parseInt in *.
  simpl Str.trimStart. cbv beta iota zeta.
  assert (T : Str.trimStart s = s).
  { destruct s as [|c r]; [reflexivity|]. simpl in H.
    apply andb_true_iff in H as [Hc _]. split_digit Hc; reflexivity. }
  rewrite T in P.
  assert (S : (match s with
               | String 45 r => (true, r)
               | String 43 r => (false, r)
               | _ => (false, s)
               end) = (false, s)).
  { destruct s as [|c r]; [reflexivity|]. simpl in H.
    apply andb_true_iff in H as [Hc _]. split_digit Hc; reflexivity. }
  rewrite S in P. cbv beta iota zeta in P.
  destruct (match s with
            | String 48 (String 120 r) => (16, r)
            | String 48 (String 88 r) => (16, r)
            | _ => (10, s)
            end) as [radix s3].
  destruct (parse_digits radix s3 None) as [n|]; rewrite <- P; reflexivity.
Qed.

Lemma parseInt_toString (n : Z) : parseInt (number_toString n) = Some n.
Proof.
  destruct n as [|p|p]; [reflexivity| |]; unfold number_toString; simpl Z.to_int;
    unfold NilZero.string_of_int, NilZero.string_of_uint;
    pose proof (DecimalPos.Unsigned.to_uint_nonnil p) as NN;
    pose proof (DecimalPos.Unsigned.of_to p) as OT;
    pose proof (of_uint_value (Pos.to_uint p)) as V; rewrite OT in V; simpl in V.
  - destruct (Pos.to_uint p) eqn:E; try congruence;
      rewrite <- E in *; rewrite parseInt_digits by apply digits_only_uint;
      rewrite parse_digits_uint_start by assumption; now rewrite <- V.
  - destruct (Pos.to_uint p) eqn:E; try congruence;
      rewrite <- E in *;
      match goal with
      | |- context [String.of_ascii (Stdlib.Strings.String.String ?m ?r)] =>
          change (String.of_ascii (Stdlib.Strings.String.String m r))
            with (String 45 (String.of_ascii r))
      end;
      rewrite parseInt_minus_digits by apply digits_only_uint;
      rewrite parse_digits_uint_start by assumption; simpl; now rewrite <- V.
Qed.

End IdText.

(** ** The handlers and the table *)

Section Handlers.

(** Removing rows keeps the row identifiers distinct. *)
Lemma row_ids_filter (keep : Row -> bool) (rows : list Row) :
  NoDup (map row_id rows) -> NoDup (map row_id (filter keep rows)).
Proof.
  induction rows as [|r rows IH]; simpl; [auto|].
  intros N. apply NoDup_cons_iff in N as [Nr N].
  destruct (keep r); simpl; [|auto].
  constructor; [|auto]. intros H. apply Nr.
  apply in_map_iff in H as (x & E & Hx). apply filter_In in Hx as [Hx _].
  rewrite <- E. now apply in_map.
Qed.

Lemma truthy_number_toString (n : Z) : Str.truthy (number_toString n) = true.
Proof.
  pose proof (parseInt_toString n) as P.
  destruct (number_toString n); [discriminate P | reflexivity].
Qed.

(** X8.  The [DELETE] handler answers [ok] exactly when the parameter is not
    empty, the database works and some row has the identifier that
    [parseInt] reads from the parameter.  Then the rows with that identifier
    are gone and the others are kept in their order; in every other case the
    world is as it was. *)
Theorem DELETE_ok_iff_row_deleted :
  forall q w,
    (ok (fst (Route.DELETE q w)) = true <->
       Str.truthy q = true /\ db_fails w = false
       /\ exists r, In r (db_rows w) /\ parseInt q = Some (row_id r))
    /\ (ok (fst (Route.DELETE q w)) = false -> snd (Route.DELETE q w) = w)
    /\ (ok (fst (Route.DELETE q w)) = true ->
        db_rows (snd (Route.DELETE q w))
        = filter (fun r => negb (row_hit q r)) (db_rows w)
        /\ db_seq (snd (Route.DELETE q w)) = db_seq w
        /\ same_local w (snd (Route.DELETE q w))).
Proof.
  intros q w. rewrite DELETE_cases.
  assert (X : existsb (row_hit q) (db_rows w) = true <->
              exists r, In r (db_rows w) /\ parseInt q = Some (row_id r)).
  { rewrite existsb_exists. unfold row_hit.
    split; intros (r & Hr & H); exists r; (split; [exact Hr|]).
    - destruct (parseInt q) as [n|]; [|discriminate].
      apply Z.eqb_eq in H. now subst.
    - rewrite H. apply Z.eqb_refl. }
  destruct (Str.truthy q); simpl;
    [| split; [|split]; [intuition discriminate | reflexivity | discriminate]].
  destruct (db_fails w); simpl;
    [split; [|split]; [intuition discriminate | reflexivity | discriminate] |].
  destruct (existsb (row_hit q) (db_rows w)) eqn:E; simpl.
  - split; [|split].
    + split; [intros _; repeat split; now apply X | reflexivity].
    + discriminate.
    + intros _. repeat split.
  - split; [|split]; [| reflexivity | discriminate].
    split; [discriminate|]. intros (_ & _ & H). apply X in H. discriminate.
Qed.

(** X9.  No handler lets two rows share an identifier or lowers the
    sequence of [AUTOINCREMENT], and every row identifier stays at or below
    the sequence; the record that [POST] returns has an identifier above the
    sequence as it was, which becomes the new sequence.  So an identifier is
    never given twice, not even after its row was deleted. *)
Theorem durable_ids_unique_never_reused :
  forall req w,
    db_seq w <= db_seq (snd (Route.handle req w))
    /\ (NoDup (map row_id (db_rows w)) ->
        NoDup (map row_id (db_rows (snd (Route.handle req w)))))
    /\ ((forall r, In r (db_rows w) -> row_id r <= db_seq w) ->
        forall r, In r (db_rows (snd (Route.handle req w))) ->
                  row_id r <= db_seq (snd (Route.handle req w)))
    /\ (forall r, body (fst (Route.handle req w)) = BodyRecord r ->
        exists i, id r = Some i /\ db_seq w < i
                  /\ db_seq (snd (Route.handle req w)) = i).
Proof.
  intros [|d|q] w; cbn [Route.handle].
  - rewrite GET_cases. destruct (db_fails w); simpl;
      repeat split; auto; try lia; intros r H; discriminate H.
  - rewrite POST_cases. destruct (db_fails w); cbn [fst snd].
    { repeat split; auto; try lia; intros r H; discriminate H. }
    unfold inserted. cbn [db_seq db_rows set_db body].
    assert (L : db_seq w < SQLiteService.next_rowid w)
      by (unfold SQLiteService.next_rowid; lia).
    split; [lia|]. split; [|split].
    + intros N. rewrite map_app. simpl.
      apply (Permutation_NoDup (Permutation_cons_append _ _)).
      constructor; [|exact N]. intros H. apply in_map_iff in H as (r & E & Hr).
      now apply (next_rowid_fresh w r).
    + intros B r Hr. apply in_app_or in Hr as [Hr|[<-|[]]]; [|simpl; lia].
      apply B in Hr. lia.
    + intros r [= <-]. exists (SQLiteService.next_rowid w). repeat split. exact L.
  - rewrite DELETE_cases.
    destruct (negb (Str.truthy q));
      [cbn [fst snd body]; repeat split; auto; try lia; intros r H; discriminate H|].
    destruct (db_fails w);
      [cbn [fst snd body]; repeat split; auto; try lia; intros r H; discriminate H|].
    destruct (existsb (row_hit q) (db_rows w));
      [|cbn [fst snd body]; repeat split; auto; try lia; intros r H; discriminate H].
    cbn [fst snd db_seq db_rows set_db body]. split; [lia|]. split; [|split].
    + apply row_ids_filter.
    + intros B r Hr. apply filter_In in Hr as [Hr _]. now apply B.
    + discriminate.
Qed.

Lemma durable_ids_unique_never_reused_witness :
  NoDup (map row_id (db_rows (browser None)))
  /\ NoDup (map row_id (db_rows (snd (Route.handle (ReqPOST sample_draft) (browser None))))).
Proof.
  assert (N : NoDup (map row_id (db_rows (browser None)))) by constructor.
  split; [exact N|].
  exact (proj1 (proj2 (durable_ids_unique_never_reused (ReqPOST sample_draft)
                         (browser None))) N).
Defined.

(** X10.  With the durable backend reached and working, deleting through the
    store a numeric identifier that some row has removes exactly the rows
    with that identifier, keeps the others in their order, and leaves the
    sequence and the ephemeral backend as they were. *)
Theorem durable_delete_by_number :
  forall n w,
    transport w = Up -> db_fails w = false ->
    (exists r, In r (db_rows w) /\ row_id r = n) ->
    StorageService.deleteRecord (StorageService.mk true) (IdNumber n) w
    = set_db (filter (fun r => negb (row_id r =? n)) (db_rows w)) (db_seq w) w.
Proof.
  intros n w T F (r & Hr & E).
  unfold StorageService.deleteRecord, StorageService.tryDeleteRecord, fetch.
  cbn [StorageService.useSQLite id_toString Route.handle]. rewrite T, DELETE_cases, F.
  rewrite truthy_number_toString. cbn [negb].
  assert (H : forall x, row_hit (number_toString n) x = (row_id x =? n)).
  { intros x. unfold row_hit. now rewrite parseInt_toString. }
  assert (X : existsb (row_hit (number_toString n)) (db_rows w) = true).
  { apply existsb_exists. exists r. split; [exact Hr|]. rewrite H. now apply Z.eqb_eq. }
  rewrite X. cbn. f_equal. apply filter_ext. intros x. now rewrite H.
Qed.

Lemma durable_delete_by_number_witness :
  transport (inserted sample_draft (browser None)) = Up
  /\ db_fails (inserted sample_draft (browser None)) = false
  /\ (exists r, In r (db_rows (inserted sample_draft (browser None))) /\ row_id r = 1)
  /\ db_rows (StorageService.deleteRecord (StorageService.mk true) (IdNumber 1)
                (inserted sample_draft (browser None))) = [].
Proof.
  assert (E : exists r, In r (db_rows (inserted sample_draft (browser None)))
                        /\ row_id r = 1).
  { eexists. split; [left; reflexivity | reflexivity]. }
  split; [reflexivity|]. split; [reflexivity|]. split; [exact E|].
  rewrite (durable_delete_by_number 1 (inserted sample_draft (browser None))
             eq_refl eq_refl E).
  reflexivity.
Defined.

End Handlers.

Lemma DELETE_ok_iff_row_deleted_witness :
  ok (fst (Route.DELETE "1" (inserted sample_draft (browser None)))) = true
  /\ db_rows (snd (Route.DELETE "1" (inserted sample_draft (browser None))))
     = filter (fun r => negb (row_hit "1" r))
              (db_rows (inserted sample_draft (browser None))).
Proof.
  split; [reflexivity|].
  exact (proj1 (proj2 (proj2 (DELETE_ok_iff_row_deleted "1"
                                (inserted sample_draft (browser None)))) eq_refl)).
Defined.

Section Ordering.

Lemma newest_first_sorted (rows : list Row) :
  StronglySorted
    (fun a b => String.compare (row_created_at b) (row_created_at a) <> Gt)
    (newest_first rows).
Proof.
  unfold newest_first.
  apply (sort_by_sorted (fun a b => String.compare (row_created_at b) (row_created_at a))).
  - intros a b. apply string_compare_total.
  - intros a b c H1 H2. exact (string_compare_trans _ _ _ H2 H1).
Qed.

(** X11.  With a working database, [getAllRecords] returns every row of the
    table exactly once, a row never before one with a greater [created_at];
    with a failing database it throws and changes nothing. *)
Theorem getAllRecords_newest_first :
  forall w,
    (db_fails w = false ->
       SQLiteService.getAllRecords w
       = (Ok (map SQLiteService.row_record (newest_first (db_rows w))), w)
       /\ Permutation (newest_first (db_rows w)) (db_rows w)
       /\ StronglySorted
            (fun a b => String.compare (row_created_at b) (row_created_at a) <> Gt)
            (newest_first (db_rows w)))
    /\ (db_fails w = true -> SQLiteService.getAllRecords w = (Thrown, w)).
Proof.
  intros w. split; intros F.
  - split; [unfold_server; now rewrite F|].
    split; [apply sort_by_perm | apply newest_first_sorted].
  - unfold_server. now rewrite F.
Qed.

Lemma getAllRecords_newest_first_witness :
  db_fails (inserted sample_draft (browser None)) = false
  /\ Permutation (newest_first (db_rows (inserted sample_draft (browser None))))
                 (db_rows (inserted sample_draft (browser None))).
Proof.
  split; [reflexivity|].
  exact (proj1 (proj2 (proj1 (getAllRecords_newest_first
                                (inserted sample_draft (browser None))) eq_refl))).
Defined.

End Ordering.

(** ** Fallback, continued *)

Section FallbackMore.

(** X12.  A record saved while requests are lost goes to the ephemeral
    backend only: the table is untouched, and once the durable backend is
    reached again its list is what it would have been without the save. *)
Theorem fallback_record_stays_ephemeral :
  forall d w,
    transport w = RequestLost ->
    StorageService.saveRecord (StorageService.mk true) d w = saveLocalRecord d w
    /\ db_rows (snd (StorageService.saveRecord (StorageService.mk true) d w)) = db_rows w
    /\ (window_defined w = true ->
        In (fst (StorageService.saveRecord (StorageService.mk true) d w))
           (getLocalRecords (snd (StorageService.saveRecord (StorageService.mk true) d w))))
    /\ (db_fails w = false ->
        fst (StorageService.getRecords (StorageService.mk true)
               (set_transport Up (snd (StorageService.saveRecord (StorageService.mk true) d w))))
        = fst (StorageService.getRecords (StorageService.mk true) (set_transport Up w))).
Proof.
  intros d w T.
  assert (E : StorageService.saveRecord (StorageService.mk true) d w = saveLocalRecord d w).
  { unfold StorageService.saveRecord, StorageService.trySaveRecord, fetch.
    simpl. now rewrite T. }
  rewrite E. split; [reflexivity|]. split; [|split].
  - unfold saveLocalRecord. simpl. now destruct (window_defined w).
  - intros W. rewrite getLocalRecords_saveLocalRecord by assumption. now left.
  - intros F. rewrite !getRecords_durable; try reflexivity; try assumption.
    + cbn [fst]. unfold saveLocalRecord. simpl. now destruct (window_defined w).
    + unfold saveLocalRecord. simpl. now destruct (window_defined w).
Qed.

Lemma fallback_record_stays_ephemeral_witness :
  transport (offline None) = RequestLost
  /\ db_fails (offline None) = false
  /\ fst (StorageService.getRecords (StorageService.mk true)
            (set_transport Up
               (snd (StorageService.saveRecord (StorageService.mk true) sample_draft
                       (offline None)))))
     = fst (StorageService.getRecords (StorageService.mk true)
              (set_transport Up (offline None))).
Proof.
  split; [reflexivity|]. split; [reflexivity|].
  exact (proj2 (proj2 (proj2 (fallback_record_stays_ephemeral sample_draft
                                (offline None) eq_refl))) eq_refl).
Defined.

(** X13.  When the response to a save is lost, the working database has
    already inserted the row, and the store, taking the loss for a failure,
    creates the record on the ephemeral backend as well: the record then
    exists in both backends, under the row identifier in one and under the
    clock's integer in the other. *)
Theorem lost_response_saves_twice :
  forall d w,
    transport w = ResponseLost -> db_fails w = false ->
    StorageService.saveRecord (StorageService.mk true) d w
    = saveLocalRecord d (inserted d w)
    /\ id (fst (StorageService.saveRecord (StorageService.mk true) d w))
       = Some (ms (clock w))
    /\ In (mkRow (SQLiteService.next_rowid w) (d_names d) (d_date d) (d_type d)
                 (d_duration d) (sql (clock w)))
          (db_rows (snd (StorageService.saveRecord (StorageService.mk true) d w)))
    /\ (window_defined w = true ->
        In (fst (StorageService.saveRecord (StorageService.mk true) d w))
           (getLocalRecords (snd (StorageService.saveRecord (StorageService.mk true) d w)))).
Proof.
  intros d w T F.
  assert (E : StorageService.saveRecord (StorageService.mk true) d w
              = saveLocalRecord d (inserted d w)).
  { unfold StorageService.saveRecord, StorageService.trySaveRecord, fetch.
    cbn [StorageService.useSQLite Route.handle]. now rewrite T, POST_cases, F. }
  rewrite E. split; [reflexivity|]. split; [reflexivity|]. split.
  - unfold saveLocalRecord, inserted. simpl.
    destruct (window_defined w); simpl; apply in_or_app; right; now left.
  - intros W. rewrite getLocalRecords_saveLocalRecord by exact W. now left.
Qed.

Lemma lost_response_saves_twice_witness :
  transport (set_transport ResponseLost (browser None)) = ResponseLost
  /\ db_fails (set_transport ResponseLost (browser None)) = false
  /\ StorageService.saveRecord (StorageService.mk true) sample_draft
       (set_transport ResponseLost (browser None))
     = saveLocalRecord sample_draft
         (inserted sample_draft (set_transport ResponseLost (browser None))).
Proof.
  split; [reflexivity|]. split; [reflexivity|].
  exact (proj1 (lost_response_saves_twice sample_draft
                  (set_transport ResponseLost (browser None)) eq_refl eq_refl)).
Defined.

End FallbackMore.

(** ** The year and month lists *)

Section Facets.

Lemma set_add_In (s : list string) (x y : string) :
  In y (set_add s x) <-> In y s \/ y = x.
Proof.
  unfold set_add. destruct (existsb (String.eqb x) s) eqn:E.
  - split; [auto|]. intros [H| ->]; [exact H|].
    apply existsb_exists in E as (z & Hz & Ez). apply StringFacts.eqb_eq in Ez. now subst.
  - rewrite in_app_iff. simpl. intuition.
Qed.

Lemma set_add_NoDup (s : list string) (x : string) : NoDup s -> NoDup (set_add s x).
Proof.
  intros N. unfold set_add. destruct (existsb (String.eqb x) s) eqn:E; [exact N|].
  apply (Permutation_NoDup (Permutation_cons_append s x)).
  constructor; [|exact N]. intros H.
  assert (existsb (String.eqb x) s = true)
    by (apply existsb_exists; exists x; split; [exact H | apply StringFacts.eqb_refl]).
  congruence.
Qed.

(** A set filled by one pass over the records, [g] telling what, if
    anything, a record adds. *)
Lemma fold_set_add (g : Rec -> option string) (records : list Rec) (s : list string) :
  let step := fun acc r => match g r with Some x => set_add acc x | None => acc end in
  (NoDup s -> NoDup (fold_left step records s))
  /\ (forall y, In y (fold_left step records s) <->
                In y s \/ exists r, In r records /\ g r = Some y).
Proof.
  cbv zeta. revert s. induction records as [|r records IH]; intros s; simpl.
  - split; [auto|]. intros y. split; [auto|]. intros [H|(r & [] & _)]. exact H.
  - destruct (IH (match g r with Some x => set_add s x | None => s end)) as [N I].
    split.
    + intros Hs. apply N. destruct (g r); [now apply set_add_NoDup | exact Hs].
    + intros y. rewrite I. destruct (g r) as [x|] eqn:G.
      * rewrite set_add_In. split.
        -- intros [[H| ->]|(r' & Hr' & E)]; eauto.
        -- intros [H|(r' & [<-|Hr'] & E)]; eauto.
           left. right. congruence.
      * split.
        -- intros [H|(r' & Hr' & E)]; eauto.
        -- intros [H|(r' & [<-|Hr'] & E)]; eauto. congruence.
Qed.

Lemma StronglySorted_snoc {A : Type} (R : A -> A -> Prop) (l : list A) (a : A) :
  StronglySorted R l -> Forall (fun x => R x a) l -> StronglySorted R (l ++ [a]).
Proof.
  induction 1 as [|x l S IH F]; intros H; simpl.
  - repeat constructor.
  - apply Forall_cons_iff in H as [Hx H]. constructor; [auto|].
    apply Forall_app. split; [exact F | now constructor].
Qed.

Lemma StronglySorted_rev {A : Type} (R : A -> A -> Prop) (l : list A) :
  StronglySorted R l -> StronglySorted (fun a b => R b a) (rev l).
Proof.
  induction 1 as [|x l S IH F]; simpl; [constructor|].
  apply StronglySorted_snoc; [exact IH|].
  apply Forall_forall. intros y Hy. apply in_rev in Hy.
  rewrite Forall_forall in F. auto.
Qed.

Lemma StronglySorted_strict {A : Type} (R : A -> A -> Prop) (l : list A) :
  StronglySorted R l -> NoDup l -> StronglySorted (fun a b => R a b /\ a <> b) l.
Proof.
  induction 1 as [|x l S IH F]; intros N; [constructor|].
  apply NoDup_cons_iff in N as [Nx N]. constructor; [auto|].
  apply Forall_forall. intros y Hy. rewrite Forall_forall in F.
  split; [auto|]. intros ->. contradiction.
Qed.

(** The strings of a duplicate-free list, sorted by code units and reversed,
    are in strictly descending order. *)
Lemma rev_sort_descending (l : list string) :
  NoDup l ->
  Permutation (rev (sort_by String.compare l)) l
  /\ StronglySorted (fun a b => String.compare b a = Lt) (rev (sort_by String.compare l)).
Proof.
  intros N.
  assert (P : Permutation (rev (sort_by String.compare l)) l).
  { rewrite <- Permutation_rev. apply sort_by_perm. }
  split; [exact P|].
  assert (S : StronglySorted (fun a b => String.compare b a <> Gt /\ a <> b)
                             (rev (sort_by String.compare l))).
  { apply StronglySorted_strict.
    - apply (StronglySorted_rev (fun a b => String.compare a b <> Gt)).
      apply (sort_by_sorted String.compare).
      + exact string_compare_total.
      + exact string_compare_trans.
    - apply (Permutation_NoDup (Permutation_sym P) N). }
  clear -S. induction S as [|x l0 S0 IH F]; constructor; [exact IH|].
  eapply Forall_impl; [|exact F]. intros y [H1 H2]. simpl in *.
  destruct (String.compare y x) eqn:E; [|reflexivity|congruence].
  apply StringFacts.compare_eq_iff in E. congruence.
Qed.

(** X14.  The list of years has no duplicates, holds exactly the first four
    characters of the dates of the records, and is in strictly descending
    order. *)
Theorem availableYears_facts :
  forall records,
    NoDup (availableYears records)
    /\ (forall y, In y (availableYears records) <->
                  exists r, In r records /\ y = String.substring 0 4 (date r))
    /\ StronglySorted (fun a b => String.compare b a = Lt) (availableYears records).
Proof.
  intros records. unfold availableYears.
  destruct (fold_set_add (fun r => Some (String.substring 0 4 (date r))) records [])
    as [N I]. cbv beta iota in N, I.
  specialize (N (NoDup_nil _)).
  destruct (rev_sort_descending _ N) as [P S].
  split; [|split].
  - apply (Permutation_NoDup (Permutation_sym P) N).
  - intros y. rewrite (Permutation_in' (eq_refl y) P), I. split.
    + intros [[]|(r & Hr & [= E])]. eauto.
    + intros (r & Hr & ->). right. eauto.
  - exact S.
Qed.

(** X15.  The list of months has no duplicates, holds exactly the first seven
    characters of the dates of the records whose date starts with the chosen
    year (of all records when no year is chosen), and is in strictly
    descending order. *)
Theorem availableMonths_facts :
  forall f records,
    NoDup (availableMonths f records)
    /\ (forall m, In m (availableMonths f records) <->
                  exists r, In r records
                            /\ (filterYear f = ""%js
                                \/ Str.startsWith (date r) (filterYear f) = true)
                            /\ m = String.substring 0 7 (date r))
    /\ StronglySorted (fun a b => String.compare b a = Lt) (availableMonths f records).
Proof.
  intros f records. unfold availableMonths.
  assert (E : forall l,
             fold_left (fun months record =>
                          if negb (Str.truthy (filterYear f))
                             || Str.startsWith (date record) (filterYear f)
                          then set_add months (String.substring 0 7 (date record))
                          else months) records l
             = fold_left (fun acc r =>
                            match (if negb (Str.truthy (filterYear f))
                                      || Str.startsWith (date r) (filterYear f)
                                   then Some (String.substring 0 7 (date r)) else None)
                            with Some x => set_add acc x | None => acc end) records l).
  { induction records as [|r rs IH]; intros l; [reflexivity|]. simpl.
    rewrite IH. now destruct (negb (Str.truthy (filterYear f)) || _). }
  destruct (fold_set_add
              (fun r => if negb (Str.truthy (filterYear f))
                           || Str.startsWith (date r) (filterYear f)
                        then Some (String.substring 0 7 (date r)) else None)
              records []) as [N I].
  cbv beta in N, I.
  rewrite E. specialize (N (NoDup_nil _)).
  destruct (rev_sort_descending _ N) as [P S].
  split; [|split].
  - apply (Permutation_NoDup (Permutation_sym P) N).
  - intros m. rewrite (Permutation_in' (eq_refl m) P), I.
    assert (C : forall r,
               negb (Str.truthy (filterYear f)) || Str.startsWith (date r) (filterYear f) = true
               <-> filterYear f = ""%js \/ Str.startsWith (date r) (filterYear f) = true).
    { intros r. rewrite orb_true_iff. destruct (filterYear f); simpl; intuition discriminate. }
    split.
    + intros [[]|(r & Hr & H)]. exists r. split; [exact Hr|].
      destruct (negb (Str.truthy (filterYear f)) || _) eqn:X; [|discriminate].
      injection H as <-. split; [now apply C | reflexivity].
    + intros (r & Hr & Hc & ->). right. exists r. split; [exact Hr|].
      apply C in Hc. now rewrite Hc.
  - exact S.
Qed.

End Facets.

(** ** The two filters *)

Section Filters.

Local Open Scope js_scope.

Lemma startsWith_empty (s : string) : Str.startsWith s "" = true.
Proof. unfold Str.startsWith. now destruct s. Qed.

(** X16.  The filter of the statistics is the filter of the records view
    without date and search text, with "all" read as no restriction for the
    month and the year: unlike the view, it takes both "all" and the empty
    text for no restriction. *)
Theorem statsMatches_is_view_filter :
  forall toLowerCase ty mo ye r,
    statsMatches (mkStatsFilter ty mo ye) r
    = matchesView toLowerCase (mkViewFilter None ty (unall mo) (unall ye) "") r.
Proof.
  intros toLowerCase ty mo ye r.
  unfold statsMatches, matchesView, matchesDate, matchesType, matchesMonth,
    matchesYear, matchesName. cbn [statsFilterType statsFilterMonth statsFilterYear
    filterDate filterType filterMonth filterYear searchName Str.truthy Str.is_empty negb].
  rewrite andb_true_r. cbn [andb orb].
  assert (U : forall v d,
             String.eqb v "all" || Str.startsWith d v
             = negb (negb (Str.is_empty (unall v))) || Str.startsWith d (unall v)).
  { intros v d. unfold unall. destruct (String.eqb v "all") eqn:E; [reflexivity|].
    destruct v; [now rewrite startsWith_empty | reflexivity]. }
  now rewrite (U mo), (U ye).
Qed.

End Filters.

(** ** Statistics, continued *)

Section StatisticsMore.

Variable localeCompare : string -> string -> comparison.

Lemma per_name_name (k : string) (rs : list Rec) (s : Statistics) :
  name (per_name k rs s) = name s.
Proof.
  unfold per_name. revert s. induction rs as [|r rs IH]; intros s; simpl; [reflexivity|].
  rewrite IH. induction (count_occ string_dec (names r) k) as [|n IHn]; [reflexivity|].
  rewrite Nat.iter_succ, increment_name. exact IHn.
Qed.

(** The entries of the statistics, one for each name that occurs. *)
Lemma In_statistics (f : StatsFilter) (records : list Rec) (st : Statistics) :
  In st (statistics localeCompare f records) <->
  exists k,
    existsb (fun r => existsb (String.eqb k) (names r))
            (filter (statsMatches f) records) = true
    /\ st = per_name k (filter (statsMatches f) records) (zero_stats k).
Proof.
  set (kept := filter (statsMatches f) records).
  pose proof (statistics_perm localeCompare f records) as P. fold kept in P.
  destruct (accumulate_inv kept [] (conj (Forall_nil _) (NoDup_nil _))) as [K N].
  assert (V : forall k, val (accumulate kept []) k = per_name k kept (zero_stats k))
    by (intros k; apply (proj1 (accumulate_val kept [] k))).
  assert (H : forall k, map_has (accumulate kept []) k
                        = existsb (fun r => existsb (String.eqb k) (names r)) kept)
    by (intros k; apply (proj2 (accumulate_val kept [] k))).
  rewrite (Permutation_in' (eq_refl st) P). split.
  - intros Hst. apply in_map_iff in Hst as ([k s] & E & He). simpl in E. subst s.
    exists k. rewrite <- H, <- V. split.
    + apply map_has_In. now apply (in_map fst _ (k, st)).
    + unfold val. now rewrite (map_get_In _ _ _ N He).
  - intros (k & Hk & ->). rewrite <- H in Hk. rewrite <- V.
    rewrite map_has_get in Hk. unfold val, map_get in *.
    destruct (find _ (accumulate kept [])) as [e|] eqn:F; [|discriminate].
    simpl. apply find_some in F as [F _]. now apply in_map.
Qed.

Lemma day_sum_perm (l l' : list Rec) : Permutation l l' -> day_sum l = day_sum l'.
Proof.
  induction 1 as [| x l l' _ IH | x y l | l l' l'' _ IH1 _ IH2]; simpl.
  - reflexivity.
  - now rewrite IH.
  - rewrite !Qcplus_assoc. f_equal. apply Qcplus_comm.
  - congruence.
Qed.

Lemma statistics_eq (a b : Statistics) :
  name a = name b -> overtimeCount a = overtimeCount b -> leaveCount a = leaveCount b ->
  overtimeDays a = overtimeDays b -> leaveDays a = leaveDays b -> a = b.
Proof. destruct a, b. simpl. intros. now subst. Qed.

Lemma per_name_perm (k : string) (rs rs' : list Rec) (s : Statistics) :
  Permutation rs rs' -> per_name k rs s = per_name k rs' s.
Proof.
  intros P.
  destruct (per_name_fields k rs s) as (A1 & A2 & A3 & A4).
  destruct (per_name_fields k rs' s) as (B1 & B2 & B3 & B4).
  assert (M : forall ty, Permutation (mentions k ty rs) (mentions k ty rs')).
  { intros ty. unfold mentions. now apply Permutation_flat_map. }
  assert (C : forall ty, reference_count k ty rs = reference_count k ty rs').
  { intros ty. unfold reference_count. f_equal. apply Permutation_length, M. }
  assert (D : forall ty, reference_days k ty rs = reference_days k ty rs').
  { intros ty. apply (day_sum_perm _ _ (M ty)). }
  apply statistics_eq.
  - now rewrite !per_name_name.
  - now rewrite A1, B1, C.
  - now rewrite A2, B2, C.
  - now rewrite A3, B3, D.
  - now rewrite A4, B4, D.
Qed.

(** X18.  The statistics do not depend on the order of the records: the same
    records in another order give the same entries. *)
Theorem statistics_any_order :
  forall f records records',
    Permutation records records' ->
    forall st, In st (statistics localeCompare f records)
               <-> In st (statistics localeCompare f records').
Proof.
  assert (D : forall f records records',
             Permutation records records' ->
             forall st, In st (statistics localeCompare f records)
                        -> In st (statistics localeCompare f records')).
  { intros f records records' P st. rewrite !In_statistics.
    pose proof (filter_perm (statsMatches f) _ _ P) as PK.
    intros (k & Hk & ->). exists k. split.
    - apply existsb_exists in Hk as (r & Hr & Hn). apply existsb_exists.
      exists r. split; [now apply (Permutation_in _ PK) | exact Hn].
    - now apply per_name_perm. }
  intros f records records' P st. split; apply D; [exact P | now apply Permutation_sym].
Qed.

End StatisticsMore.

Lemma statistics_any_order_witness :
  Permutation [stats_record1; stats_record2] [stats_record2; stats_record1]
  /\ forall st,
       In st (statistics String.compare no_stats_filter [stats_record1; stats_record2])
       <-> In st (statistics String.compare no_stats_filter [stats_record2; stats_record1]).
Proof.
  split; [apply perm_swap|].
  exact (statistics_any_order String.compare no_stats_filter _ _
           (perm_swap stats_record2 stats_record1 [])).
Defined.

Section HalfDays.

Variable localeCompare : string -> string -> comparison.

Lemma half_plus_one (k : Z) : (1 + Q2Qc (k # 2))%Qc = Q2Qc ((k + 2) # 2).
Proof.
  unfold Qcplus. apply Q2Qc_eq_iff. cbn [this Q2Qc]. rewrite !Qred_correct.
  unfold Qeq, Qplus. cbn [Qnum Qden]. lia.
Qed.

Lemma half_plus_half (k : Z) : (Q2Qc (1 # 2) + Q2Qc (k # 2))%Qc = Q2Qc ((k + 1) # 2).
Proof.
  unfold Qcplus. apply Q2Qc_eq_iff. cbn [this Q2Qc]. rewrite !Qred_correct.
  unfold Qeq, Qplus. cbn [Qnum Qden]. lia.
Qed.

(** A sum of day equivalents is a number of half days between the number of
    its terms and twice that number. *)
Lemma day_sum_half_days (l : list Rec) :
  exists k, Z.of_nat (List.length l) <= k <= 2 * Z.of_nat (List.length l)
            /\ day_sum l = Q2Qc (k # 2).
Proof.
  induction l as [|r l (k & B & E)].
  - exists 0. split; [simpl; lia|]. apply Qc_is_canon. reflexivity.
  - cbn [day_sum fold_right]. fold (day_sum l). rewrite E.
    destruct (duration r); cbn [day_equivalent].
    + exists (k + 2). split; [cbn [List.length]; lia | apply half_plus_one].
    + exists (k + 1). split; [cbn [List.length]; lia | apply half_plus_half].
    + exists (k + 1). split; [cbn [List.length]; lia | apply half_plus_half].
Qed.

Lemma mentions_nonempty (k : string) (r : Rec) (rs : list Rec) :
  In r rs -> In k (names r) -> In r (mentions k (type r) rs).
Proof.
  intros Hr Hk. unfold mentions. apply in_flat_map. exists r. split; [exact Hr|].
  assert (T : type_eqb (type r) (type r) = true)
    by (unfold type_eqb; apply StringFacts.eqb_refl).
  rewrite T. apply (count_occ_In string_dec) in Hk.
  destruct (count_occ string_dec (names r) k); [lia | now left].
Qed.

(** X19.  In every entry of the statistics the two counts are not negative
    and not both zero, and each day total is a whole number of half days
    that lies between half the count and the count. *)
Theorem statistics_counts_and_half_days :
  forall f records st,
    In st (statistics localeCompare f records) ->
    0 <= overtimeCount st /\ 0 <= leaveCount st
    /\ 0 < overtimeCount st + leaveCount st
    /\ (exists k, overtimeCount st <= k <= 2 * overtimeCount st
                  /\ overtimeDays st = Q2Qc (k # 2))
    /\ (exists k, leaveCount st <= k <= 2 * leaveCount st
                  /\ leaveDays st = Q2Qc (k # 2)).
Proof.
  intros f records st H. apply In_statistics in H as (k & Hk & ->).
  set (kept := filter (statsMatches f) records) in *.
  destruct (per_name_fields k kept (zero_stats k)) as (F1 & F2 & F3 & F4).
  cbn [zero_stats overtimeCount leaveCount overtimeDays leaveDays] in F1, F2, F3, F4.
  rewrite Qcplus_0_l in F3, F4. rewrite F1, F2, F3, F4.
  unfold reference_count, reference_days. fold (day_sum (mentions k overtime kept)).
  fold (day_sum (mentions k leave kept)).
  split; [lia|]. split; [lia|]. split; [|split; apply day_sum_half_days].
  apply existsb_exists in Hk as (r & Hr & Hn).
  apply existsb_exists in Hn as (x & Hx & E). apply StringFacts.eqb_eq in E. subst x.
  pose proof (mentions_nonempty k r kept Hr Hx) as M.
  destruct (type r);
    [destruct (mentions k overtime kept) | destruct (mentions k leave kept)];
    try contradiction; cbn [List.length]; lia.
Qed.

End HalfDays.

Lemma statistics_counts_and_half_days_witness :
  In (mkStatistics "B" 0 1 0%Qc (Q2Qc (1 # 2)))
     (statistics String.compare no_stats_filter [stats_record1; stats_record2])
  /\ 0 < overtimeCount (mkStatistics "B" 0 1 0%Qc (Q2Qc (1 # 2)))
         + leaveCount (mkStatistics "B" 0 1 0%Qc (Q2Qc (1 # 2))).
Proof.
  assert (H : In (mkStatistics "B" 0 1 0%Qc (Q2Qc (1 # 2)))
                 (statistics String.compare no_stats_filter
                    [stats_record1; stats_record2])).
  { unfold statistics. rewrite sample_accumulate. simpl. right. now left. }
  split; [exact H|].
  exact (proj1 (proj2 (proj2 (statistics_counts_and_half_days String.compare
                                no_stats_filter _ _ H)))).
Defined.

(** ** The list shown *)

Section ShownList.

Lemma id_is_not_differs (n : Z) (r : Rec) :
  id_is_not n r = id_differs r (number_toString n).
Proof.
  unfold id_is_not, id_differs. destruct (id r) as [j|]; [|reflexivity]. f_equal.
  destruct (Z.eqb_spec j n) as [->|N]; [now rewrite StringFacts.eqb_refl|].
  symmetry. apply StringFacts.eqb_neq. intros E. apply N. now apply number_toString_inj.
Qed.

Lemma normalise_any_instant (t t' : Instant) (s : StoredRecord) :
  complete s = true -> normalise t s = normalise t' s.
Proof.
  unfold complete, normalise, str_or. destruct s as [i n d ty du c]. simpl.
  destruct du; [|discriminate]. destruct c as [c|]; [|discriminate].
  now intros ->.
Qed.

Lemma getLocalRecords_any_instant (t : Instant) (w : World) :
  forallb complete (stored w) = true ->
  getLocalRecords (set_clock t w) = getLocalRecords w.
Proof.
  intros Hc. rewrite !getLocalRecords_stored.
  change (window_defined (set_clock t w)) with (window_defined w).
  change (stored (set_clock t w)) with (stored w).
  change (clock (set_clock t w)) with t.
  destruct (window_defined w); [|reflexivity].
  apply map_ext_in. intros s Hs. apply normalise_any_instant.
  rewrite forallb_forall in Hc. auto.
Qed.

Lemma complete_written (t : Instant) (s : StoredRecord) :
  Str.truthy (iso t) = true -> complete (to_stored (normalise t s)) = true.
Proof.
  intros Ht. unfold complete, to_stored, normalise, str_or. simpl.
  destruct (s_created_at s) as [c|]; [|exact Ht].
  destruct (Str.truthy c) eqn:E; [exact E | exact Ht].
Qed.

Lemma complete_map_written (t : Instant) (l : list StoredRecord) :
  Str.truthy (iso t) = true ->
  forallb complete (map (fun s => to_stored (normalise t s)) l) = true.
Proof.
  intros Ht. apply forallb_forall. intros x Hx.
  apply in_map_iff in Hx as (s & <- & _). now apply complete_written.
Qed.

Lemma later_list_fixed (t : Instant) (w : World) (l : list Rec) :
  Str.truthy (iso (clock w)) = true ->
  (forall r, In r l -> In r (getLocalRecords w)) ->
  map (fun r => normalise t (to_stored r)) l = l.
Proof.
  intros Ht Hl. apply map_fixed. intros r Hr.
  apply Hl, in_getLocalRecords in Hr as (s & _ & ->). now apply normalise_later.
Qed.

(** X20.  On the ephemeral backend in a browser whose stored records carry
    their [duration] and [created_at], the list shown follows the store: a
    list that [loadRecords] fetched at one instant, after [deleteRecord] of
    the component for whatever record, or after [addRecord], saved or
    refused, at a second instant, is the list that the store returns at a
    third; and the stored records again carry both fields, so that the same
    holds for the next operation. *)
Theorem shown_list_follows_store :
  forall w t0 t1,
    window_defined w = true ->
    forallb complete (stored w) = true ->
    Str.truthy (iso (clock w)) = true ->
    (forall record,
        fst (deleteRecord (StorageService.mk false) record
               (fst (loadRecords (StorageService.mk false) (set_clock t0 w))) w)
        = getLocalRecords
            (set_clock t1
               (snd (deleteRecord (StorageService.mk false) record
                       (fst (loadRecords (StorageService.mk false) (set_clock t0 w))) w)))
        /\ forallb complete
             (stored (snd (deleteRecord (StorageService.mk false) record
                             (fst (loadRecords (StorageService.mk false) (set_clock t0 w)))
                             w))) = true)
    /\ (forall form ty,
        snd (fst (addRecord_state (StorageService.mk false) form ty
                    (fst (loadRecords (StorageService.mk false) (set_clock t0 w))) w))
        = getLocalRecords
            (set_clock t1
               (snd (addRecord_state (StorageService.mk false) form ty
                       (fst (loadRecords (StorageService.mk false) (set_clock t0 w))) w)))
        /\ forallb complete
             (stored (snd (addRecord_state (StorageService.mk false) form ty
                             (fst (loadRecords (StorageService.mk false) (set_clock t0 w)))
                             w))) = true).
Proof.
  intros w t0 t1 W Hc Ht.
  assert (L : fst (loadRecords (StorageService.mk false) (set_clock t0 w))
              = getLocalRecords w).
  { unfold loadRecords, StorageService.getRecords. cbn [StorageService.useSQLite fst].
    now apply getLocalRecords_any_instant. }
  rewrite L. clear L.
  pose proof (getLocalRecords_any_instant t1 w Hc) as Same.
  split.
  - intros record. unfold deleteRecord.
    destruct (id record) as [i|]; [|now split].
    destruct (i =? 0); [now split|]. cbn [fst snd].
    unfold StorageService.deleteRecord. cbn [StorageService.useSQLite id_toString].
    split.
    + rewrite getLocalRecords_after_delete.
      rewrite (later_list_fixed t1 w) by
        (try exact Ht; intros r Hr; now apply filter_In in Hr as [Hr _]).
      apply filter_ext. intros r. apply id_is_not_differs.
    + rewrite stored_deleteLocalRecord by exact W. now apply complete_map_written.
  - intros form ty. unfold addRecord_state, addRecord.
    destruct (selectedDate form) as [day|]; [|now split].
    destruct (negb (Str.truthy (Str.trim (nameInput form)))); [now split|].
    destruct (Z.of_nat (List.length (parseNames (nameInput form))) =? 0); [now split|].
    unfold StorageService.saveRecord. cbn [StorageService.useSQLite].
    set (d := mkDraft (parseNames (nameInput form)) day ty (durationInput form)
                      (Some (iso (clock w)))).
    pose proof (getLocalRecords_after_save w d t1 W) as G.
    pose proof (stored_saveLocalRecord d w W) as S.
    destruct (saveLocalRecord d w) as [r w'] eqn:E. cbn [fst snd] in *.
    assert (R : r = mkRec (Some (ms (clock w))) (parseNames (nameInput form)) day ty
                      (durationInput form) (Some (iso (clock w)))).
    { unfold saveLocalRecord in E. injection E as <- _. unfold d, str_or. cbn.
      now rewrite Ht. }
    split.
    + rewrite G. cbn [map]. f_equal.
      * rewrite R. unfold normalise, to_stored, str_or. cbn. now rewrite Ht.
      * symmetry. now apply (later_list_fixed t1 w).
    + rewrite S. cbn [forallb]. rewrite complete_map_written by exact Ht.
      rewrite R. unfold complete, to_stored. cbn. now rewrite Ht.
Qed.

Lemma shown_list_follows_store_witness :
  window_defined (browser (Some [sample_stored (Some 5)])) = true
  /\ forallb complete (stored (browser (Some [sample_stored (Some 5)]))) = true
  /\ Str.truthy (iso (clock (browser (Some [sample_stored (Some 5)])))) = true
  /\ fst (deleteRecord (StorageService.mk false)
            (normalise sample_instant (sample_stored (Some 5)))
            (fst (loadRecords (StorageService.mk false)
                    (set_clock sample_instant (browser (Some [sample_stored (Some 5)])))))
            (browser (Some [sample_stored (Some 5)])))
     = getLocalRecords
         (set_clock sample_later
            (snd (deleteRecord (StorageService.mk false)
                    (normalise sample_instant (sample_stored (Some 5)))
                    (fst (loadRecords (StorageService.mk false)
                            (set_clock sample_instant
                               (browser (Some [sample_stored (Some 5)])))))
                    (browser (Some [sample_stored (Some 5)]))))).
Proof.
  split; [reflexivity|]. split; [reflexivity|]. split; [reflexivity|].
  exact (proj1 (proj1 (shown_list_follows_store
                         (browser (Some [sample_stored (Some 5)]))
                         sample_instant sample_later eq_refl eq_refl eq_refl)
                      (normalise sample_instant (sample_stored (Some 5))))).
Defined.

End ShownList.
